(** * Shallow embedding of shizai-downloader

    Two downloaders: [src/npm.js] (recursive npm tarball walker) and the
    Docker image puller (download-docker.js, [src/unnamed/part_000]).
    Network replies, prompts and file-system probes are parameters of the
    model; every request the code sends is recorded in a trace. *)

From Stdlib Require Import String Ascii List Bool Arith Lia Permutation.
Import ListNotations.
Open Scope string_scope.
Open Scope list_scope.

(** ** A state monad with exceptions and process exit

    [Throw] is a JavaScript exception (a rejected promise), [Exit] is
    [process.exit(code)], which ends the process at once and cannot be
    caught; [OutOfFuel] only bounds the depth of recursion of the model. *)

Inductive res (S A : Type) : Type :=
| Ok (a : A) (s : S)
| Throw (s : S)
| Exit (code : nat) (s : S)
| OutOfFuel.

Arguments Ok {S A} a s.
Arguments Throw {S A} s.
Arguments Exit {S A} code s.
Arguments OutOfFuel {S A}.

Definition M (S A : Type) : Type := S -> res S A.

Definition ret {S A} (a : A) : M S A := fun s => Ok a s.

Definition bind {S A B} (m : M S A) (k : A -> M S B) : M S B :=
  fun s =>
    match m s with
    | Ok a s' => k a s'
    | Throw s' => Throw s'
    | Exit c s' => Exit c s'
    | OutOfFuel => OutOfFuel
    end.

Definition throw {S A} : M S A := fun s => Throw s.
Definition exit {S A} (code : nat) : M S A := fun s => Exit code s.
Definition out_of_fuel {S A} : M S A := fun _ => OutOfFuel.

(** [try { m } catch { h }] *)
Definition try_catch {S A} (m : M S A) (h : M S A) : M S A :=
  fun s =>
    match m s with
    | Throw s' => h s'
    | r => r
    end.

Notation "x <- m ;; k" := (bind m (fun x => k))
  (at level 61, m at next level, right associativity).
Notation "m ;;; k" := (bind m (fun _ => k))
  (at level 61, right associativity).

(** [for (const x of xs) { await f(x); }] *)
Fixpoint for_each {S A} (f : A -> M S unit) (xs : list A) : M S unit :=
  match xs with
  | [] => ret tt
  | x :: rest => f x ;;; for_each f rest
  end.

(** The final state of a run satisfies [P]; [OutOfFuel] carries no state. *)
Definition res_ok {S A} (P : S -> Prop) (r : res S A) : Prop :=
  match r with
  | Ok _ s | Throw s => P s
  | Exit _ _ => False
  | OutOfFuel => True
  end.

(** ** src/npm.js *)

Module Npm.

(** The version document of [GET /{name}/{version}]: [dependencies] (an
    object, in [Object.entries] order) and [dist.tarball]. *)
Record VersionMeta := {
  dependencies : option (list (string * string));
  dist_tarball : option string
}.

(** Requests and messages, in the order the code issues them. *)
Inductive event :=
| ReqVersion (name version : string)   (* npmFetch.json(`/${name}/${version}`) *)
| ReqTarball (url : string)            (* npmFetch(tarballUrl) *)
| ReqPackument (name : string)         (* npmFetch.json(`/${name}`) *)
| MetadataError (name : string)        (* console.error in fetchPackageMetadata *)
| NoMatch (name range : string)        (* console.warn: no satisfying version *)
| PackageDone (name : string)
| PackageError (name : string).

(** The module-level [downloadedPackages] set, the files on disk and the
    trace of requests. *)
Record state := {
  downloadedPackages : list string;
  files : list string;
  trace : list event
}.

(** Outcome of [npmFetch(tarballUrl)] followed by [streamPipeline]. *)
Inductive tarball_outcome :=
| FetchFailed       (* npmFetch rejects: nothing written *)
| StreamFailed      (* the write stream was opened, the pipeline rejects *)
| Complete.

Section Walker.

(** [npmFetch.json(`/${name}/${version}`)]; [None] when it rejects. *)
Variable registry_version : string -> string -> option VersionMeta.
(** [Object.keys(metadata.versions)] of [npmFetch.json(`/${name}`)];
    [None] when the request rejects. *)
Variable registry_packument : string -> option (list string).
Variable tarball_result : string -> tarball_outcome.
(** [path.basename(url.parse(tarballUrl).pathname)] *)
Variable url_basename : string -> string.
(** [semver.maxSatisfying(versions, range)], [None] for [null]. *)
Variable maxSatisfying : list string -> string -> option string.
(** The interactive version prompt of [promptForVersion]. *)
Variable promptForVersion : string -> list string -> string.

Definition emit (e : event) : M state unit :=
  fun s => Ok tt {| downloadedPackages := downloadedPackages s;
                    files := files s;
                    trace := trace s ++ [e] |}.

Definition pkgSpec (name version : string) : string :=
  name ++ "@" ++ version.

Definition has (k : string) (l : list string) : bool :=
  existsb (String.eqb k) l.

Definition get_seen : M state (list string) :=
  fun s => Ok (downloadedPackages s) s.

Definition add_seen (k : string) : M state unit :=
  fun s => Ok tt {| downloadedPackages := k :: downloadedPackages s;
                    files := files s;
                    trace := trace s |}.

Definition exists_sync (p : string) : M state bool :=
  fun s => Ok (has p (files s)) s.

Definition create_file (p : string) : M state unit :=
  fun s => Ok tt {| downloadedPackages := downloadedPackages s;
                    files := if has p (files s) then files s else p :: files s;
                    trace := trace s |}.

Definition fetch_version (name version : string) : M state VersionMeta :=
  emit (ReqVersion name version) ;;;
  match registry_version name version with
  | Some m => ret m
  | None => throw
  end.

(** [fetchPackageMetadata]: reports and rethrows. *)
Definition fetchPackageMetadata (name : string) : M state (list string) :=
  emit (ReqPackument name) ;;;
  match registry_packument name with
  | Some vs => ret vs
  | None => emit (MetadataError name) ;;; throw
  end.

Definition outputDir : string := "downloads/npm-packages".

Definition destPath_of (tarballUrl : string) : string :=
  outputDir ++ "/" ++ url_basename tarballUrl.

(** Lines 61-89: download the tarball unless the file exists. *)
Definition fetchTarballIfMissing (tarballUrl destPath : string) : M state unit :=
  ex <- exists_sync destPath ;;
  if ex then ret tt
  else
    emit (ReqTarball tarballUrl) ;;;
    match tarball_result tarballUrl with
    | FetchFailed => throw
    | StreamFailed => create_file destPath ;;; throw
    | Complete => create_file destPath
    end.

(** [downloadTarball(name, version)]. The fuel bounds the depth of the
    recursive call of line 99 and nothing else. *)
Fixpoint downloadTarball (fuel : nat) (name version : string) : M state unit :=
  let k := pkgSpec name version in
  seen <- get_seen ;;
  if has k seen then ret tt
  else
    add_seen k ;;;
    metadata <- fetch_version name version ;;
    let deps := match dependencies metadata with Some d => d | None => [] end in
    match dist_tarball metadata with
    | None => throw
    | Some tarballUrl =>
        fetchTarballIfMissing tarballUrl (destPath_of tarballUrl) ;;;
        for_each (fun '(depName, depVersionRange) =>
          depVersions <- fetchPackageMetadata depName ;;
          match maxSatisfying depVersions depVersionRange with
          | Some v =>
              match fuel with
              | O => out_of_fuel
              | S fuel' => downloadTarball fuel' depName v
              end
          | None => emit (NoMatch depName depVersionRange)
          end) deps
    end.

(** One iteration of the loop of lines 92-103. *)
Definition processDep (fuel : nat) (dep : string * string) : M state unit :=
  let '(depName, depVersionRange) := dep in
  depVersions <- fetchPackageMetadata depName ;;
  match maxSatisfying depVersions depVersionRange with
  | Some v =>
      match fuel with
      | O => out_of_fuel
      | S fuel' => downloadTarball fuel' depName v
      end
  | None => emit (NoMatch depName depVersionRange)
  end.

Definition processDeps (fuel : nat) (deps : list (string * string)) : M state unit :=
  for_each (processDep fuel) deps.

(** [processPackage(packageName)] *)
Definition processPackage (fuel : nat) (packageName : string) : M state unit :=
  try_catch
    (versions <- fetchPackageMetadata packageName ;;
     let selectedVersion :=
       match versions with
       | [] => "undefined"
       | [v] => v
       | _ => promptForVersion packageName versions
       end in
     downloadTarball fuel packageName selectedVersion ;;;
     emit (PackageDone packageName))
    (emit (PackageError packageName)).

End Walker.

(** The identities whose version document was requested, in order. *)
Definition vkeys (t : list event) : list string :=
  flat_map (fun e => match e with ReqVersion n v => [pkgSpec n v] | _ => [] end) t.

(** The requests [GET /{name}/{version}] for one identity. *)
Definition version_requests (name version : string) (t : list event) : list event :=
  filter (fun e => match e with
                   | ReqVersion n v => String.eqb n name && String.eqb v version
                   | _ => false
                   end) t.

(** A run from [st] to [st'] only appends to the trace, and the identities
    it adds to [downloadedPackages] are exactly the ones whose version
    document it requested, each once, none of them seen before. *)
Definition grows (st st' : state) : Prop :=
  exists added : list event,
    trace st' = trace st ++ added /\
    downloadedPackages st' = rev (vkeys added) ++ downloadedPackages st /\
    NoDup (vkeys added) /\
    (forall k, In k (vkeys added) -> ~ In k (downloadedPackages st)).

(** The identities of [U] not yet in [seen]. *)
Definition unseen (U seen : list string) : nat :=
  length (filter (fun k => negb (has k seen)) U).

End Npm.

(** ** The [semver] package's [maxSatisfying] (called at src/npm.js:96)

    The package is a dependency, not part of this repository; its
    function reads:
<<
  let max = null, maxSV = null, rangeObj = null
  try { rangeObj = new Range(range, options) } catch (er) { return null }
  versions.forEach((v) => {
    if (rangeObj.test(v)) {
      if (!max || maxSV.compare(v) === -1) { max = v; maxSV = new SemVer(max, options) }
    }
  })
  return max
>>
    The range parser, [Range.test] and [SemVer.compare] are parameters. *)

Module Semver.

Section MaxSatisfying.

(** [new Range(range)] does not throw. *)
Variable valid_range : string -> bool.
(** [rangeObj.test(v)] *)
Variable test : string -> string -> bool.
(** [new SemVer(a).compare(b)]: [Lt] for -1, [Eq] for 0, [Gt] for 1. *)
Variable compare : string -> string -> comparison.

Definition maxSatisfying (versions : list string) (range : string) : option string :=
  if valid_range range then
    fold_left (fun max v =>
      if test range v then
        match max with
        | None => Some v
        | Some m => match compare m v with Lt => Some v | _ => max end
        end
      else max) versions None
  else None.

End MaxSatisfying.

(** A fragment of semver used to evaluate [maxSatisfying] on concrete
    inputs: release versions [MAJOR.MINOR.PATCH] with optional [+build]
    metadata (no pre-release part), and the range [*].  As in semver,
    [compare] compares MAJOR, MINOR and PATCH numerically and ignores the
    build metadata. *)

Fixpoint split_aux (c : ascii) (s cur : string) : list string :=
  match s with
  | EmptyString => [cur]
  | String a s' =>
      if Ascii.eqb a c then cur :: split_aux c s' EmptyString
      else split_aux c s' (cur ++ String a EmptyString)
  end.

(** [s.split(c)] for a one-character separator. *)
Definition split (c : ascii) (s : string) : list string := split_aux c s EmptyString.

Definition digit_value (a : ascii) : option nat :=
  let n := nat_of_ascii a in
  if Nat.leb 48 n && Nat.leb n 57 then Some (n - 48) else None.

Fixpoint parse_digits (s : string) (acc : nat) : option nat :=
  match s with
  | EmptyString => Some acc
  | String a s' =>
      match digit_value a with
      | Some d => parse_digits s' (acc * 10 + d)
      | None => None
      end
  end.

Definition parse_num (s : string) : option nat :=
  match s with
  | EmptyString => None
  | _ => parse_digits s 0
  end.

Definition parse_core (core : string) : option (nat * nat * nat) :=
  match split "." core with
  | [a; b; c] =>
      match parse_num a, parse_num b, parse_num c with
      | Some x, Some y, Some z => Some (x, y, z)
      | _, _, _ => None
      end
  | _ => None
  end.

Definition parse_version (s : string) : option (nat * nat * nat) :=
  match split "+" s with
  | [core] => parse_core core
  | [core; build] => match build with EmptyString => None | _ => parse_core core end
  | _ => None
  end.

Definition frag_valid_range (r : string) : bool := String.eqb r "*".

Definition frag_test (r v : string) : bool :=
  String.eqb r "*" && match parse_version v with Some _ => true | None => false end.

Definition key (v : string) : nat * nat * nat :=
  match parse_version v with Some t => t | None => (0, 0, 0) end.

Definition compare_main (x y : nat * nat * nat) : comparison :=
  let '(a1, b1, c1) := x in
  let '(a2, b2, c2) := y in
  match Nat.compare a1 a2 with
  | Eq => match Nat.compare b1 b2 with
          | Eq => Nat.compare c1 c2
          | o => o
          end
  | o => o
  end.

Definition frag_compare (a b : string) : comparison := compare_main (key a) (key b).

Definition frag_maxSatisfying : list string -> string -> option string :=
  maxSatisfying frag_valid_range frag_test frag_compare.

End Semver.

(** ** src/npm.js, [main]: the loop over the requested packages *)

Module NpmMain.
Import Npm.

Section Main.

Variable registry_version : string -> string -> option VersionMeta.
Variable registry_packument : string -> option (list string).
Variable tarball_result : string -> tarball_outcome.
Variable url_basename : string -> string.
Variable maxSatisfying : list string -> string -> option string.
Variable promptForVersion : string -> list string -> string.

(** Lines 159-161: [for (const pkg of packageNames) await processPackage(pkg)]. *)
Definition processAll (fuel : nat) (packageNames : list string) : M state unit :=
  for_each (processPackage registry_version registry_packument tarball_result url_basename
              maxSatisfying promptForVersion fuel) packageNames.

End Main.

End NpmMain.

(** ** Concrete npm registries *)

Module NpmSample.
Import Npm.

Definition last_segment (u : string) : string :=
  last (Semver.split "/" u) "".

Definition tgz (name version : string) : string :=
  "https://registry.npmjs.org/" ++ name ++ "/-/" ++ name ++ "-" ++ version ++ ".tgz".

Definition meta (name version : string) (deps : list (string * string)) : VersionMeta :=
  {| dependencies := Some deps; dist_tarball := Some (tgz name version) |}.

(** [a@1.0.0] depends on [b@*], [b@1.0.0] depends on [a@*]. *)
Definition cycle_version (name version : string) : option VersionMeta :=
  if String.eqb version "1.0.0" then
    if String.eqb name "a" then Some (meta "a" "1.0.0" [("b", "*")])
    else if String.eqb name "b" then Some (meta "b" "1.0.0" [("a", "*")])
    else None
  else None.

Definition cycle_packument (name : string) : option (list string) :=
  if String.eqb name "a" || String.eqb name "b" then Some ["1.0.0"] else None.

(** [app@1.0.0] depends on [left@*] and [right@*]; the request for the
    [left] document fails, [right@1.0.0] has no dependencies; [app] and
    [right] have the one version [1.0.0]. *)
Definition edges_version (name version : string) : option VersionMeta :=
  if String.eqb version "1.0.0" then
    if String.eqb name "app" then Some (meta "app" "1.0.0" [("left", "*"); ("right", "*")])
    else if String.eqb name "right" then Some (meta "right" "1.0.0" [])
    else None
  else None.

Definition edges_packument (name : string) : option (list string) :=
  if String.eqb name "app" || String.eqb name "right" then Some ["1.0.0"] else None.

Definition all_complete (_ : string) : tarball_outcome := Complete.

(** The tarball of [a@1.0.0] cannot be fetched. *)
Definition a_fails (u : string) : tarball_outcome :=
  if String.eqb u (tgz "a" "1.0.0") then FetchFailed else Complete.

Definition empty_state : state :=
  {| downloadedPackages := []; files := []; trace := [] |}.

End NpmSample.

(** ** src/unnamed/part_000 (download-docker.js) *)

Module Docker.

Record Platform := {
  os : string;
  architecture : string;
  variant : option string
}.

(** An entry of [manifest.manifests] of a manifest list or OCI index. *)
Record Descriptor := {
  platform : Platform;
  digest : string
}.

(** The manifest JSON: [mediaType], [manifests] (index), [layers]
    (as their digests) and [config.digest]. *)
Record Manifest := {
  mediaType : option string;
  manifests : list Descriptor;
  layers : list string;
  config : option string
}.

Record Response := {
  data : Manifest;
  content_type : string
}.

Inductive event :=
| ReqToken (name : string)
| ReqManifest (name reference : string) (accept : list string)
| ReqTags (name : string)
| ReqBlob (name digest : string)
| PromptTag (choices : list string)
| PromptPlatform (choices : list string)
| NoTags                               (* console.error: no tags found *)
| TagsError                            (* console.error in selectTag's catch *)
| AlreadyDownloaded (path : string)
| LayerFailed (url token : string)     (* the block printed for a failed layer *)
| Unsupported                          (* unsupported manifest type *)
| ImageError (imageName : string)      (* console.error in the outer catch *)
| ImageDone (path : string).

(** The major version of the tar-stream package behind [tar.pack()]; the
    repository pins none, and the two differ on a second entry. *)
Inductive tar_version := TarV2 | TarV3.

(** The [tar.pack()] stream of one call, as tar-stream keeps it: the
    destination it is piped into, the names of the entry headers it has
    pushed, the entries queued behind the open one ([_pending], 3.x),
    whether an entry is open ([_stream]), [_finalizing], and [_finalized]
    (the end-of-archive blocks pushed). *)
Record Pack := {
  pack_path : string;
  headers : list string;
  pending : list string;
  piping : bool;
  finalizing : bool;
  finalized : bool
}.

Record state := {
  files : list string;
  packs : list Pack;
  trace : list event
}.

Section Puller.

Variable tar : tar_version.
(** [authResponse.data.token]; [None] when the request rejects. *)
Variable auth_token : string -> option string.
(** [GET /v2/{name}/manifests/{reference}]; [None] when it rejects. *)
Variable manifest_get : string -> string -> option Response.
(** [GET /v2/{name}/blobs/{digest}]: [false] when it rejects. *)
Variable blob_ok : string -> string -> bool.
(** [tagsResponse.data.tags]: [None] when the request rejects,
    [Some None] when the field is missing. *)
Variable tags_get : string -> option (option (list string)).
(** [tags.sort(localeCompare numeric)] *)
Variable sort_tags : list string -> list string.
(** The prompts: the chosen tag, and the chosen index [value]. *)
Variable promptTag : list string -> string.
Variable promptPlatform : list string -> nat.

Definition registry : string := "registry-1.docker.io".

Definition emit (e : event) : M state unit :=
  fun s => Ok tt {| files := files s; packs := packs s; trace := trace s ++ [e] |}.

Definition has (k : string) (l : list string) : bool :=
  existsb (String.eqb k) l.

Definition exists_sync (p : string) : M state bool :=
  fun s => Ok (has p (files s)) s.

(** [tar.pack()] piped into [fs.createWriteStream(destPath)]. *)
Definition pack_new (p : string) : M state unit :=
  fun s => Ok tt {| files := if has p (files s) then files s else p :: files s;
                    packs := {| pack_path := p; headers := []; pending := [];
                                piping := false; finalizing := false;
                                finalized := false |} :: packs s;
                    trace := trace s |}.

Definition on_pack (f : Pack -> Pack) : M state unit :=
  fun s => Ok tt {| files := files s;
                    packs := match packs s with [] => [] | p :: ps => f p :: ps end;
                    trace := trace s |}.

(** The header of entry [n] is pushed and the entry is left open. *)
Definition open_entry (n : string) (p : Pack) : Pack :=
  {| pack_path := pack_path p; headers := headers p ++ [n]; pending := pending p;
     piping := true; finalizing := finalizing p; finalized := finalized p |}.

(** The entry [n] waits behind the open one. *)
Definition queue_entry (n : string) (p : Pack) : Pack :=
  {| pack_path := pack_path p; headers := headers p; pending := pending p ++ [n];
     piping := piping p; finalizing := finalizing p; finalized := finalized p |}.

(** [pack.entry({ name: n }, stream)].  The second argument is a response
    stream, neither a Buffer nor a string: tar-stream sets [size] to 0,
    never reads the stream, and returns a sink for the content that
    nobody writes or ends, so the entry stays open.  With an entry open,
    2.x throws [already piping an entry] and 3.x queues the new one. *)
Definition pack_entry (n : string) : M state unit :=
  fun s =>
    match packs s with
    | [] => Ok tt s
    | p :: _ =>
        match tar with
        | TarV2 =>
            if piping p then Throw s
            else if finalized p then Ok tt s
            else on_pack (open_entry n) s
        | TarV3 =>
            if finalized p then Throw s
            else if piping p then on_pack (queue_entry n) s
            else on_pack (open_entry n) s
        end
    end.

(** [pack.finalize()]: with an entry open or queued it only records
    [_finalizing]; otherwise it pushes the end-of-archive blocks. *)
Definition pack_finalize : M state unit :=
  fun s =>
    match packs s with
    | [] => Ok tt s
    | p :: _ =>
        if piping p || negb (match pending p with [] => true | _ => false end) then
          on_pack (fun p => {| pack_path := pack_path p; headers := headers p;
                               pending := pending p; piping := piping p;
                               finalizing := true; finalized := finalized p |}) s
        else if finalized p then Ok tt s
        else
          on_pack (fun p => {| pack_path := pack_path p; headers := headers p;
                               pending := pending p; piping := piping p;
                               finalizing := finalizing p; finalized := true |}) s
    end.

Definition getToken (name : string) : M state string :=
  emit (ReqToken name) ;;;
  match auth_token name with Some t => ret t | None => throw end.

Definition getManifest (name reference : string) (accept : list string) : M state Response :=
  emit (ReqManifest name reference accept) ;;;
  match manifest_get name reference with Some r => ret r | None => throw end.

Definition getBlob (name digest : string) : M state unit :=
  emit (ReqBlob name digest) ;;;
  if blob_ok name digest then ret tt else throw.

Definition acceptAll : list string :=
  [ "application/vnd.oci.image.index.v1+json";
    "application/vnd.docker.distribution.manifest.list.v2+json";
    "application/vnd.oci.image.manifest.v1+json";
    "application/vnd.docker.distribution.manifest.v2+json";
    "application/vnd.docker.container.image.v1+json";
    "application/json" ].

Definition acceptConcrete : list string :=
  [ "application/vnd.oci.image.manifest.v1+json";
    "application/vnd.docker.distribution.manifest.v2+json";
    "application/vnd.docker.container.image.v1+json";
    "application/json" ].

(** [manifest.mediaType || manifestResponse.headers['content-type']] *)
Definition mediaTypeOf (r : Response) : string :=
  match mediaType (data r) with
  | Some t => if String.eqb t "" then content_type r else t
  | None => content_type r
  end.

Definition is_index (mt : string) : bool :=
  String.eqb mt "application/vnd.docker.distribution.manifest.list.v2+json"
  || String.eqb mt "application/vnd.oci.image.index.v1+json".

Definition is_concrete (mt : string) : bool :=
  String.eqb mt "application/vnd.oci.image.manifest.v1+json"
  || String.eqb mt "application/vnd.docker.distribution.manifest.v2+json".

(** The [name] of a platform choice: [`${os}/${architecture}${variant}`]. *)
Definition choice_name (m : Descriptor) : string :=
  os (platform m) ++ "/" ++ architecture (platform m)
  ++ match variant (platform m) with
     | Some v => if String.eqb v "" then "" else " (" ++ v ++ ")"
     | None => ""
     end.

Fixpoint contains (c : ascii) (s : string) : bool :=
  match s with
  | EmptyString => false
  | String a s' => Ascii.eqb a c || contains c s'
  end.

(** [s.replace(/[cs]/g, d)] for a set of characters [cs]. *)
Fixpoint replace_chars (cs : list ascii) (d : ascii) (s : string) : string :=
  match s with
  | EmptyString => EmptyString
  | String a s' =>
      String (if existsb (Ascii.eqb a) cs then d else a) (replace_chars cs d s')
  end.

Definition layer_entry_name (digest : string) : string :=
  "layer-" ++ replace_chars [":"%char; "/"%char] "_" digest ++ ".tar.gz".

Definition blob_url (name digest : string) : string :=
  "https://" ++ registry ++ "/v2/" ++ name ++ "/blobs/" ++ digest.

(** Lines 138-158: one layer, its failure caught and reported. *)
Definition fetchLayer (name token layer : string) : M state unit :=
  try_catch
    (getBlob name layer ;;; pack_entry (layer_entry_name layer))
    (emit (LayerFailed (blob_url name layer) ("Bearer " ++ token))).

(** Lines 117-174: the layers, then the configuration, into one tar. *)
Definition pullConcrete (name token : string) (manifest : Manifest) (destPath : string)
  : M state unit :=
  pack_new destPath ;;;
  for_each (fetchLayer name token) (layers manifest) ;;;
  match config manifest with
  | None => throw
  | Some cfg =>
      getBlob name cfg ;;;
      pack_entry "config.json" ;;;
      pack_finalize ;;;
      emit (ImageDone destPath)
  end.

(** Lines 41-182, the body of the [try] block. *)
Definition pullImage (name tag destPath : string) : M state unit :=
  token <- getToken name ;;
  resp <- getManifest name tag acceptAll ;;
  resolved <-
    (if is_index (mediaTypeOf resp) then
       let ms := manifests (data resp) in
       let choices := map choice_name ms in
       emit (PromptPlatform choices) ;;;
       match nth_error ms (promptPlatform choices) with
       | None => throw
       | Some selected =>
           resp' <- getManifest name (digest selected) acceptConcrete ;;
           ret (data resp', mediaTypeOf resp')
       end
     else ret (data resp, mediaTypeOf resp)) ;;
  let '(manifest, mt) := resolved in
  if is_concrete mt then pullConcrete name token manifest destPath
  else emit Unsupported.

(** [selectTag(name)] *)
Definition selectTag (name : string) : M state string :=
  try_catch
    (_ <- getToken name ;;
     emit (ReqTags name) ;;;
     match tags_get name with
     | None => throw
     | Some None | Some (Some []) => emit NoTags ;;; exit 1
     | Some (Some tags) =>
         let choices := rev (sort_tags tags) in
         emit (PromptTag choices) ;;;
         ret (promptTag choices)
     end)
    (emit TagsError ;;; exit 1).

Definition outputDir : string := "downloads/docker-images".

(** Lines 19-24: [let [name, tag] = imageName.split(':')], then the
    [library/] prefix; a missing tag is [""] (both are falsy). *)
Definition image_name (imageName : string) : string :=
  let name0 := match Semver.split ":" imageName with n :: _ => n | [] => "" end in
  if contains "/" name0 then name0 else "library/" ++ name0.

Definition image_tag (imageName : string) : string :=
  match Semver.split ":" imageName with _ :: t :: _ => t | _ => "" end.

(** [downloadDockerImage(imageName)] *)
Definition downloadDockerImage (imageName : string) : M state unit :=
  let name := image_name imageName in
  let tag0 := image_tag imageName in
  tag <- (if String.eqb tag0 "" then selectTag name else ret tag0) ;;
  let destPath := (outputDir ++ "/" ++ replace_chars ["/"%char] "_" name
                   ++ "_" ++ tag ++ ".tar")%string in
  ex <- exists_sync destPath ;;
  if ex then emit (AlreadyDownloaded destPath)
  else try_catch (pullImage name tag destPath) (emit (ImageError imageName)).

(** The [for (const name of imageNames)] loop of [main]. *)
Definition downloadAll (imageNames : list string) : M state unit :=
  for_each downloadDockerImage imageNames.

End Puller.

End Docker.


(** The destination of [downloadDockerImage] (lines 32-34). *)
Definition docker_dest_path (name tag : string) : string :=
  (Docker.outputDir ++ "/" ++ Docker.replace_chars ["/"%char] "_" name
   ++ "_" ++ tag ++ ".tar")%string.

(** ** Concrete registries for the puller *)

Module DockerSample.
Import Docker.

Definition linux (arch : string) : Platform :=
  {| os := "linux"; architecture := arch; variant := None |}.

(** [library/alpine:3.18] is an OCI index of two platforms; the arm64
    manifest has two layers and a configuration. *)
Definition alpine_index : Manifest :=
  {| mediaType := Some "application/vnd.oci.image.index.v1+json";
     manifests := [ {| platform := linux "amd64"; digest := "sha256:amd" |};
                    {| platform := linux "arm64"; digest := "sha256:arm" |} ];
     layers := []; config := None |}.

Definition alpine_arm64 : Manifest :=
  {| mediaType := Some "application/vnd.oci.image.manifest.v1+json";
     manifests := [];
     layers := ["sha256:l1"; "sha256:l2"];
     config := Some "sha256:cfg" |}.

Definition manifests_get (name reference : string) : option Response :=
  if String.eqb name "library/alpine" then
    if String.eqb reference "3.18" then
      Some {| data := alpine_index; content_type := "application/json" |}
    else if String.eqb reference "sha256:arm" then
      Some {| data := alpine_arm64; content_type := "application/json" |}
    else None
  else None.

Definition any_token (_ : string) : option string := Some "tok".

(** The blob of the first layer cannot be fetched. *)
Definition first_layer_fails (_ digest : string) : bool :=
  negb (String.eqb digest "sha256:l1").

(** Every repository answers its tag list with an empty array. *)
Definition empty_tags (_ : string) : option (option (list string)) := Some (Some []).

Definition pick_second (_ : list string) : nat := 1.
Definition pick_first_tag (l : list string) : string := hd "" l.

Definition empty_state : state := {| files := []; packs := []; trace := [] |}.

End DockerSample.

(** ** Further concrete registries *)

Module ExtraSample.

Module N.
Import Npm NpmSample.

(** [solo] publishes one version, [bare] none at all. *)
Definition few_packument (name : string) : option (list string) :=
  if String.eqb name "solo" then Some ["2.1.0"]
  else if String.eqb name "bare" then Some []
  else None.

Definition few_version (name version : string) : option VersionMeta :=
  if String.eqb name "solo" && String.eqb version "2.1.0" then Some (meta "solo" "2.1.0" [])
  else None.

Definition first_choice (_ : string) (vs : list string) : string := hd "" vs.

(** Every tarball stream breaks off after the file was created. *)
Definition stream_fails (_ : string) : tarball_outcome := StreamFailed.

End N.

Module D.
Import Docker.

(** [library/busybox:1.36] is a single-platform manifest; the manifest of
    [library/hello:old] has a media type the puller does not handle. *)
Definition busybox_manifest : Manifest :=
  {| mediaType := Some "application/vnd.oci.image.manifest.v1+json";
     manifests := []; layers := ["sha256:b1"]; config := Some "sha256:bcfg" |}.

Definition hello_manifest : Manifest :=
  {| mediaType := Some "application/vnd.docker.distribution.manifest.v1+prettyjws";
     manifests := []; layers := []; config := None |}.

Definition manifests_get (name reference : string) : option Response :=
  if String.eqb name "library/busybox" && String.eqb reference "1.36" then
    Some {| data := busybox_manifest; content_type := "application/json" |}
  else if String.eqb name "library/hello" && String.eqb reference "old" then
    Some {| data := hello_manifest; content_type := "application/json" |}
  else None.

(** The configuration blob of busybox cannot be fetched. *)
Definition config_fails (_ digest : string) : bool :=
  negb (String.eqb digest "sha256:bcfg").

Definition some_tags (_ : string) : option (option (list string)) :=
  Some (Some ["1.35"; "1.36"]).

Definition no_token (_ : string) : option string := None.

Definition busybox_dest : string :=
  docker_dest_path "library/busybox" "1.36".

End D.

End ExtraSample.

(** * Proofs *)

(** ** The monad *)

Lemma bind_Ok {S A B} (m : M S A) (k : A -> M S B) s a s' :
  m s = Ok a s' -> bind m k s = k a s'.
Proof. unfold bind; intros ->; reflexivity. Qed.

Lemma for_each_app {S A} (f : A -> M S unit) xs ys s :
  for_each f (xs ++ ys) s = bind (for_each f xs) (fun _ => for_each f ys) s.
Proof.
  revert s; induction xs as [|x xs IH]; intro s; simpl.
  - reflexivity.
  - unfold bind; destruct (f x s); try reflexivity.
    rewrite IH; reflexivity.
Qed.

Lemma res_ok_bind {S A B} (R : S -> S -> Prop)
  (Rtrans : forall a b c, R a b -> R b c -> R a c)
  (m : M S A) (k : A -> M S B) s :
  res_ok (R s) (m s) ->
  (forall a s', m s = Ok a s' -> res_ok (R s') (k a s')) ->
  res_ok (R s) (bind m k s).
Proof.
  unfold bind; intros Hm Hk.
  destruct (m s) as [a s'|s'|c s'|] eqn:E; simpl in *; auto.
  specialize (Hk a s' eq_refl).
  destruct (k a s'); simpl in *; eauto.
Qed.

Lemma res_ok_pre {S A} (R : S -> S -> Prop)
  (Rtrans : forall a b c, R a b -> R b c -> R a c) s s' (r : res S A) :
  R s s' -> res_ok (R s') r -> res_ok (R s) r.
Proof. destruct r; simpl; eauto. Qed.

Lemma bind_not_oof {S A B} (m : M S A) (k : A -> M S B) s :
  m s <> OutOfFuel ->
  (forall a s', m s = Ok a s' -> k a s' <> OutOfFuel) ->
  bind m k s <> OutOfFuel.
Proof.
  unfold bind; intros Hm Hk.
  destruct (m s) eqn:E; try discriminate; auto.
Qed.

Lemma res_ok_impl {S A} (P Q : S -> Prop) (r : res S A) :
  (forall s, P s -> Q s) -> res_ok P r -> res_ok Q r.
Proof. destruct r; simpl; auto. Qed.

(** ** The npm walker *)

Module NpmFacts.
Import Npm.

Lemma has_In k l : has k l = true <-> In k l.
Proof.
  unfold has; rewrite existsb_exists; split.
  - intros [x [Hx Heq]]; apply String.eqb_eq in Heq; subst; exact Hx.
  - intros H; exists k; split; [exact H | apply String.eqb_refl].
Qed.

Lemma has_false k l : has k l = false <-> ~ In k l.
Proof.
  rewrite <- has_In; destruct (has k l); split; intros H; congruence.
Qed.

Lemma vkeys_app a b : vkeys (a ++ b) = vkeys a ++ vkeys b.
Proof. unfold vkeys; apply flat_map_app. Qed.

Lemma grows_refl st : grows st st.
Proof.
  exists []; simpl; repeat split.
  - rewrite app_nil_r; reflexivity.
  - constructor.
  - intros k [].
Qed.

Lemma grows_trans a b c : grows a b -> grows b c -> grows a c.
Proof.
  intros [n1 [T1 [D1 [N1 F1]]]] [n2 [T2 [D2 [N2 F2]]]].
  exists (n1 ++ n2); rewrite vkeys_app; repeat split.
  - rewrite T2, T1, app_assoc; reflexivity.
  - rewrite D2, D1, rev_app_distr, app_assoc; reflexivity.
  - apply NoDup_app; auto.
    intros k Hk1 Hk2; apply (F2 k Hk2); rewrite D1.
    apply in_or_app; left; apply in_rev; rewrite rev_involutive; exact Hk1.
  - intros k Hk; apply in_app_or in Hk as [Hk|Hk]; [now apply F1|].
    intros Hin; apply (F2 k Hk); rewrite D1; apply in_or_app; right; exact Hin.
Qed.

Lemma grows_incl st st' : grows st st' -> incl (downloadedPackages st) (downloadedPackages st').
Proof.
  intros [n [_ [D _]]] k Hk; rewrite D; apply in_or_app; right; exact Hk.
Qed.

(** A step that requests no version document and leaves the set alone. *)
Lemma grows_silent st st' added :
  trace st' = trace st ++ added -> vkeys added = [] ->
  downloadedPackages st' = downloadedPackages st -> grows st st'.
Proof.
  intros T V D; exists added; rewrite V; simpl; repeat split; auto;
    try constructor; intros k [].
Qed.

Lemma emit_grows e st :
  (forall n v, e <> ReqVersion n v) -> res_ok (grows st) (emit e st).
Proof.
  intros He; simpl; apply (grows_silent _ _ [e]); simpl; auto.
  destruct e; auto; exfalso; eapply He; reflexivity.
Qed.

Lemma fetchPackageMetadata_Ok rp d st vs st' :
  fetchPackageMetadata rp d st = Ok vs st' ->
  rp d = Some vs /\
  st' = {| downloadedPackages := downloadedPackages st; files := files st;
           trace := trace st ++ [ReqPackument d] |}.
Proof.
  unfold fetchPackageMetadata, bind, emit, ret, throw.
  destruct (rp d); simpl; intros H; inversion H; subst; auto.
Qed.

Lemma fetchPackageMetadata_grows rp d st :
  res_ok (grows st) (fetchPackageMetadata rp d st).
Proof.
  unfold fetchPackageMetadata, bind, emit, ret, throw.
  destruct (rp d); simpl.
  - apply (grows_silent _ _ [ReqPackument d]); reflexivity.
  - apply (grows_silent _ _ [ReqPackument d; MetadataError d]); simpl; auto.
    rewrite <- app_assoc; reflexivity.
Qed.

Lemma fetchPackageMetadata_not_oof rp d st : fetchPackageMetadata rp d st <> OutOfFuel.
Proof.
  unfold fetchPackageMetadata, bind, emit, ret, throw; destruct (rp d); discriminate.
Qed.

Section WalkerFacts.

Variable registry_version : string -> string -> option VersionMeta.
Variable registry_packument : string -> option (list string).
Variable tarball_result : string -> tarball_outcome.
Variable url_basename : string -> string.
Variable maxSatisfying : list string -> string -> option string.
Variable promptForVersion : string -> list string -> string.

Abbreviation walk :=
  (downloadTarball registry_version registry_packument tarball_result url_basename maxSatisfying).
Abbreviation dep :=
  (processDep registry_version registry_packument tarball_result url_basename maxSatisfying).
Abbreviation dep_loop :=
  (processDeps registry_version registry_packument tarball_result url_basename maxSatisfying).
Abbreviation fetch_tarball := (fetchTarballIfMissing tarball_result).

Definition deps_of (md : VersionMeta) : list (string * string) :=
  match dependencies md with Some d => d | None => [] end.

(** The state right after line 49 for a fresh identity. *)
Definition after_version_request (st : state) (name version : string) : state :=
  {| downloadedPackages := pkgSpec name version :: downloadedPackages st;
     files := files st;
     trace := trace st ++ [ReqVersion name version] |}.

Lemma downloadTarball_eq fuel name version :
  walk fuel name version =
  (seen <- get_seen ;;
   if has (pkgSpec name version) seen then ret tt
   else
     add_seen (pkgSpec name version) ;;;
     metadata <- fetch_version registry_version name version ;;
     match dist_tarball metadata with
     | None => throw
     | Some tarballUrl =>
         fetch_tarball tarballUrl (destPath_of url_basename tarballUrl) ;;;
         dep_loop fuel (deps_of metadata)
     end).
Proof. destruct fuel; reflexivity. Qed.

Lemma walk_seen fuel name version st :
  In (pkgSpec name version) (downloadedPackages st) ->
  walk fuel name version st = Ok tt st.
Proof.
  intros H; apply has_In in H.
  rewrite downloadTarball_eq; unfold bind, get_seen; rewrite H; reflexivity.
Qed.

Lemma walk_fresh fuel name version st :
  ~ In (pkgSpec name version) (downloadedPackages st) ->
  walk fuel name version st =
  match registry_version name version with
  | None => Throw (after_version_request st name version)
  | Some md =>
      match dist_tarball md with
      | None => Throw (after_version_request st name version)
      | Some url =>
          bind (fetch_tarball url (destPath_of url_basename url))
               (fun _ => dep_loop fuel (deps_of md))
               (after_version_request st name version)
      end
  end.
Proof.
  intros H; apply has_false in H.
  rewrite downloadTarball_eq.
  unfold bind at 1; unfold get_seen; rewrite H.
  unfold add_seen, fetch_version, emit, ret, throw, bind, after_version_request.
  destruct (registry_version name version) as [md|]; [|reflexivity].
  destruct (dist_tarball md); reflexivity.
Qed.

Lemma after_version_request_grows st name version :
  ~ In (pkgSpec name version) (downloadedPackages st) ->
  grows st (after_version_request st name version).
Proof.
  intros H; exists [ReqVersion name version]; simpl; repeat split; auto.
  - repeat constructor; intros [].
  - intros k [<-|[]]; exact H.
Qed.

Lemma fetch_tarball_grows url p st : res_ok (grows st) (fetch_tarball url p st).
Proof.
  unfold fetchTarballIfMissing, bind, exists_sync, ret, emit, throw, create_file.
  destruct (has p (files st)); simpl; [apply grows_refl|].
  destruct (tarball_result url); simpl;
    apply (grows_silent _ _ [ReqTarball url]); reflexivity.
Qed.

Lemma fetch_tarball_not_oof url p st : fetch_tarball url p st <> OutOfFuel.
Proof.
  unfold fetchTarballIfMissing, bind, exists_sync, ret, emit, throw, create_file.
  destruct (has p (files st)); [discriminate|].
  destruct (tarball_result url); discriminate.
Qed.

Lemma processDep_grows fuel
  (IH : forall f, fuel = S f -> forall n v st, res_ok (grows st) (walk f n v st))
  e st : res_ok (grows st) (dep fuel e st).
Proof.
  destruct e as [d r]; unfold processDep.
  apply res_ok_bind; [exact grows_trans | apply fetchPackageMetadata_grows |].
  intros vs s' _.
  destruct (maxSatisfying vs r) as [v|].
  - destruct fuel as [|f]; [exact I | apply IH; reflexivity].
  - apply emit_grows; discriminate.
Qed.

Lemma processDeps_grows fuel
  (IH : forall f, fuel = S f -> forall n v st, res_ok (grows st) (walk f n v st))
  deps : forall st, res_ok (grows st) (dep_loop fuel deps st).
Proof.
  unfold processDeps; induction deps as [|e deps IHd]; intro st; simpl.
  - apply grows_refl.
  - apply res_ok_bind; [exact grows_trans | apply processDep_grows; exact IH |].
    intros; apply IHd.
Qed.

(** Every run of the walker only extends the trace, and adds to the set
    exactly the identities whose version document it requests. *)
Lemma walk_grows fuel : forall n v st, res_ok (grows st) (walk fuel n v st).
Proof.
  induction fuel as [|f IHf]; intros n v st;
    (destruct (in_dec String.string_dec (pkgSpec n v) (downloadedPackages st)) as [Hin|Hin];
     [rewrite walk_seen by exact Hin; apply grows_refl|]);
    rewrite walk_fresh by exact Hin;
    destruct (registry_version n v) as [md|];
    try (apply after_version_request_grows; exact Hin);
    destruct (dist_tarball md) as [url|];
    try (apply after_version_request_grows; exact Hin);
    (apply (res_ok_pre _ grows_trans _ _ _ (after_version_request_grows _ _ _ Hin));
     apply res_ok_bind; [exact grows_trans | apply fetch_tarball_grows |];
     intros; apply processDeps_grows).
  - intros f' Hf; discriminate.
  - intros f' Hf; injection Hf as <-; exact IHf.
Qed.

Lemma walk_result_seen fuel n v st st' :
  (walk fuel n v st = Ok tt st' \/ walk fuel n v st = Throw st') ->
  In (pkgSpec n v) (downloadedPackages st').
Proof.
  destruct (in_dec String.string_dec (pkgSpec n v) (downloadedPackages st)) as [Hin|Hin].
  - rewrite walk_seen by exact Hin; intros [H|H]; inversion H; subst; exact Hin.
  - pose proof (walk_grows fuel n v st) as G.
    rewrite walk_fresh in * by exact Hin.
    assert (K : In (pkgSpec n v) (downloadedPackages (after_version_request st n v)))
      by (left; reflexivity).
    destruct (registry_version n v) as [md|];
      [destruct (dist_tarball md) as [url|]|];
      try (intros [H|H]; inversion H; subst; exact K).
    assert (G2 : res_ok (grows (after_version_request st n v))
                   (bind (fetch_tarball url (destPath_of url_basename url))
                         (fun _ => dep_loop fuel (deps_of md))
                         (after_version_request st n v))).
    { apply res_ok_bind; [exact grows_trans | apply fetch_tarball_grows |].
      intros; apply processDeps_grows.
      intros f -> ; apply walk_grows. }
    intros [H|H]; rewrite H in G2; simpl in G2; apply (grows_incl _ _ G2); exact K.
Qed.

Lemma version_requests_vkeys n v t e :
  In e (version_requests n v t) -> In (pkgSpec n v) (vkeys t).
Proof.
  induction t as [|x t IH]; simpl; [intros []|].
  destruct x; simpl; try (intros H; apply IH; exact H).
  destruct (String.eqb_spec name n), (String.eqb_spec version v); subst; simpl;
    intros H; try (right; apply IH; exact H).
  left; reflexivity.
Qed.

Lemma version_requests_at_most_once n v t :
  NoDup (vkeys t) -> length (version_requests n v t) <= 1.
Proof.
  induction t as [|x t IH]; simpl; [lia|].
  destruct x; simpl; try exact IH.
  intros Hnd; inversion Hnd as [|? ? Hnot Hnd']; subst.
  destruct (String.eqb_spec name n), (String.eqb_spec version v); subst; simpl;
    try (apply IH; exact Hnd').
  destruct (version_requests n v t) as [|e rest] eqn:E; simpl; [lia|].
  exfalso; apply Hnot; apply (version_requests_vkeys n v t e); rewrite E; left; reflexivity.
Qed.

Lemma processDep_no_match fuel d r st vs st1 :
  fetchPackageMetadata registry_packument d st = Ok vs st1 ->
  maxSatisfying vs r = None ->
  dep fuel (d, r) st =
  Ok tt {| downloadedPackages := downloadedPackages st1; files := files st1;
           trace := trace st1 ++ [NoMatch d r] |}.
Proof.
  intros H Hm; unfold processDep; rewrite (bind_Ok _ _ _ _ _ H), Hm; reflexivity.
Qed.

(** Report events: only [processPackage] emits them. *)
Definition no_report (t : list event) : Prop :=
  forall p, ~ In (PackageDone p) t /\ ~ In (PackageError p) t.

(** [st'] extends the trace of [st] with events that are not reports. *)
Definition quiet (st st' : state) : Prop :=
  exists added, trace st' = trace st ++ added /\ no_report added.

Lemma no_report_app a b : no_report a -> no_report b -> no_report (a ++ b).
Proof.
  intros Ha Hb p; destruct (Ha p), (Hb p); split; intros Hp;
    apply in_app_or in Hp as [Hp|Hp]; auto.
Qed.

Lemma quiet_refl st : quiet st st.
Proof. exists []; rewrite app_nil_r; split; [reflexivity | intros p; simpl; tauto]. Qed.

Lemma quiet_trans a b c : quiet a b -> quiet b c -> quiet a c.
Proof.
  intros [x [Tx Nx]] [y [Ty Ny]]; exists (x ++ y); split.
  - rewrite Ty, Tx, app_assoc; reflexivity.
  - apply no_report_app; assumption.
Qed.

Ltac no_report_tac :=
  let p := fresh "p" in
  let H := fresh "H" in
  intros p; split; simpl; intros H;
  repeat (destruct H as [H|H]; [discriminate|]); exact H.

Lemma after_version_request_quiet st n v : quiet st (after_version_request st n v).
Proof. exists [ReqVersion n v]; split; [reflexivity | no_report_tac]. Qed.

Lemma fetchPackageMetadata_quiet d st :
  res_ok (quiet st) (fetchPackageMetadata registry_packument d st).
Proof.
  unfold fetchPackageMetadata, bind, emit, ret, throw.
  destruct (registry_packument d); simpl.
  - exists [ReqPackument d]; split; [reflexivity | no_report_tac].
  - exists [ReqPackument d; MetadataError d]; split;
      [rewrite <- app_assoc; reflexivity | no_report_tac].
Qed.

Lemma fetch_tarball_quiet url p st : res_ok (quiet st) (fetch_tarball url p st).
Proof.
  unfold fetchTarballIfMissing, bind, exists_sync, ret, emit, throw, create_file.
  destruct (has p (files st)); simpl; [apply quiet_refl|].
  destruct (tarball_result url); simpl;
    (exists [ReqTarball url]; split; [reflexivity | no_report_tac]).
Qed.

Lemma processDeps_quiet fuel
  (IH : forall f, fuel = S f -> forall n v st, res_ok (quiet st) (walk f n v st))
  deps : forall st, res_ok (quiet st) (dep_loop fuel deps st).
Proof.
  unfold processDeps; induction deps as [|[d r] deps IHd]; intro st; simpl.
  - apply quiet_refl.
  - apply res_ok_bind; [exact quiet_trans | |intros; apply IHd].
    unfold processDep.
    apply res_ok_bind; [exact quiet_trans | apply fetchPackageMetadata_quiet |].
    intros vs s' _.
    destruct (maxSatisfying vs r) as [v|].
    + destruct fuel as [|f]; [exact I | apply IH; reflexivity].
    + simpl; exists [NoMatch d r]; split; [reflexivity | no_report_tac].
Qed.

(** The walker never emits a report: whatever it adds to the trace is a
    request, a metadata error or a warning. *)
Lemma walk_quiet fuel : forall n v st, res_ok (quiet st) (walk fuel n v st).
Proof.
  induction fuel as [|f IHf]; intros n v st;
    (destruct (in_dec String.string_dec (pkgSpec n v) (downloadedPackages st)) as [Hin|Hin];
     [rewrite walk_seen by exact Hin; apply quiet_refl|]);
    rewrite walk_fresh by exact Hin;
    destruct (registry_version n v) as [md|];
    try apply after_version_request_quiet;
    destruct (dist_tarball md) as [url|];
    try apply after_version_request_quiet;
    (apply (res_ok_pre _ quiet_trans _ _ _ (after_version_request_quiet st n v));
     apply res_ok_bind; [exact quiet_trans | apply fetch_tarball_quiet |];
     intros; apply processDeps_quiet).
  - intros f' Hf; discriminate.
  - intros f' Hf; injection Hf as <-; exact IHf.
Qed.

(** C1 (as the code does it).  An edge throws exactly when the request
    for its metadata fails (lines 20-24) or the recursive walk of the
    version it resolves to throws (line 97).  When the edge [e] of
    [name@version] throws, the loop of lines 92-103 ends there: the
    edges after it are never processed and [downloadTarball] itself
    throws that exception.  An edge whose range matches no version only
    adds a warning (line 100) and the walk goes on with the next edge.
    [processPackage] catches the exception of the walk of the top-level
    package and reports it with one [PackageError] for that package; the
    walk itself never reports anything. *)
Theorem edge_failure_aborts_siblings :
  (forall fuel d r st st',
     processDep registry_version registry_packument tarball_result url_basename
       maxSatisfying fuel (d, r) st = Throw st' <->
     (registry_packument d = None /\
      st' = {| downloadedPackages := downloadedPackages st; files := files st;
               trace := trace st ++ [ReqPackument d; MetadataError d] |}) \/
     (exists vs v f,
        registry_packument d = Some vs /\ maxSatisfying vs r = Some v /\ fuel = S f /\
        downloadTarball registry_version registry_packument tarball_result url_basename
          maxSatisfying f d v
          {| downloadedPackages := downloadedPackages st; files := files st;
             trace := trace st ++ [ReqPackument d] |} = Throw st')) /\
  (forall fuel name version st md url pre e post s1 s2 s3,
     ~ In (pkgSpec name version) (downloadedPackages st) ->
     registry_version name version = Some md ->
     dist_tarball md = Some url ->
     dependencies md = Some (pre ++ e :: post) ->
     fetchTarballIfMissing tarball_result url (destPath_of url_basename url)
       (after_version_request st name version) = Ok tt s1 ->
     processDeps registry_version registry_packument tarball_result url_basename
       maxSatisfying fuel pre s1 = Ok tt s2 ->
     processDep registry_version registry_packument tarball_result url_basename
       maxSatisfying fuel e s2 = Throw s3 ->
     downloadTarball registry_version registry_packument tarball_result url_basename
       maxSatisfying fuel name version st = Throw s3) /\
  (forall fuel name version st md url pre d r vs post s1 s2,
     ~ In (pkgSpec name version) (downloadedPackages st) ->
     registry_version name version = Some md ->
     dist_tarball md = Some url ->
     dependencies md = Some (pre ++ (d, r) :: post) ->
     fetchTarballIfMissing tarball_result url (destPath_of url_basename url)
       (after_version_request st name version) = Ok tt s1 ->
     processDeps registry_version registry_packument tarball_result url_basename
       maxSatisfying fuel pre s1 = Ok tt s2 ->
     registry_packument d = Some vs ->
     maxSatisfying vs r = None ->
     downloadTarball registry_version registry_packument tarball_result url_basename
       maxSatisfying fuel name version st =
     processDeps registry_version registry_packument tarball_result url_basename
       maxSatisfying fuel post
       {| downloadedPackages := downloadedPackages s2; files := files s2;
          trace := trace s2 ++ [ReqPackument d; NoMatch d r] |}) /\
  (forall fuel pkg vs st s,
     registry_packument pkg = Some vs ->
     downloadTarball registry_version registry_packument tarball_result url_basename
       maxSatisfying fuel pkg
       (match vs with [] => "undefined" | [v] => v | _ => promptForVersion pkg vs end)
       {| downloadedPackages := downloadedPackages st; files := files st;
          trace := trace st ++ [ReqPackument pkg] |} = Throw s ->
     exists added,
       trace s = trace st ++ ReqPackument pkg :: added /\
       (forall p, ~ In (PackageDone p) added /\ ~ In (PackageError p) added) /\
       processPackage registry_version registry_packument tarball_result url_basename
         maxSatisfying promptForVersion fuel pkg st =
       Ok tt {| downloadedPackages := downloadedPackages s; files := files s;
                trace := trace st ++ ReqPackument pkg :: added ++ [PackageError pkg] |}).
Proof.
  split; [|split; [|split]].
  - intros fuel d r st st'; unfold processDep, fetchPackageMetadata, bind, emit, ret, throw.
    destruct (registry_packument d) as [vs|]; simpl.
    + destruct (maxSatisfying vs r) as [v|] eqn:Em.
      * destruct fuel as [|f]; split; intros H.
        -- discriminate.
        -- destruct H as [[H _]|[vs' [v' [f [_ [_ [Hf _]]]]]]]; discriminate.
        -- right; exists vs, v, f; auto.
        -- destruct H as [[H _]|[vs' [v' [f' [Hvs [Hv [Hf Hw]]]]]]]; [discriminate|].
           injection Hvs as <-; rewrite Em in Hv; injection Hv as <-;
             injection Hf as <-; exact Hw.
      * split; intros H; [discriminate|].
        destruct H as [[H _]|[vs' [v' [f' [Hvs [Hv _]]]]]]; [discriminate|].
        injection Hvs as <-; rewrite Em in Hv; discriminate.
    + split; intros H.
      * left; split; [reflexivity|]; injection H as <-; rewrite <- app_assoc; reflexivity.
      * destruct H as [[_ ->]|[vs' [_ [_ [H _]]]]]; [|discriminate].
        rewrite <- app_assoc; reflexivity.
  - intros fuel name version st md url pre e post s1 s2 s3 Hin Hmd Hurl Hdeps Hf Hpre He.
    rewrite walk_fresh by exact Hin; rewrite Hmd, Hurl.
    rewrite (bind_Ok _ _ _ _ _ Hf); unfold deps_of; rewrite Hdeps.
    unfold processDeps in *; rewrite for_each_app, (bind_Ok _ _ _ _ _ Hpre).
    simpl; unfold bind at 1; rewrite He; reflexivity.
  - intros fuel name version st md url pre d r vs post s1 s2 Hin Hmd Hurl Hdeps Hf Hpre Hd Hm.
    rewrite walk_fresh by exact Hin; rewrite Hmd, Hurl.
    rewrite (bind_Ok _ _ _ _ _ Hf); unfold deps_of; rewrite Hdeps.
    unfold processDeps in *; rewrite for_each_app, (bind_Ok _ _ _ _ _ Hpre).
    cbn [for_each].
    assert (E : fetchPackageMetadata registry_packument d s2 =
                Ok vs {| downloadedPackages := downloadedPackages s2; files := files s2;
                         trace := trace s2 ++ [ReqPackument d] |})
      by (unfold fetchPackageMetadata, bind, emit; rewrite Hd; reflexivity).
    rewrite (bind_Ok _ _ _ _ _ (processDep_no_match fuel d r s2 vs _ E Hm)); simpl.
    rewrite <- app_assoc; reflexivity.
  - intros fuel pkg vs st s Hvs Hw.
    pose proof (walk_quiet fuel pkg
                  (match vs with [] => "undefined" | [v] => v | _ => promptForVersion pkg vs end)
                  {| downloadedPackages := downloadedPackages st; files := files st;
                     trace := trace st ++ [ReqPackument pkg] |}) as Q.
    rewrite Hw in Q; destruct Q as [added [T N]]; simpl in T.
    exists added; split; [rewrite T, <- app_assoc; reflexivity|split; [exact N|]].
    unfold processPackage, try_catch.
    assert (E : fetchPackageMetadata registry_packument pkg st =
                Ok vs {| downloadedPackages := downloadedPackages st; files := files st;
                         trace := trace st ++ [ReqPackument pkg] |})
      by (unfold fetchPackageMetadata, bind, emit; rewrite Hvs; reflexivity).
    rewrite (bind_Ok _ _ _ _ _ E); unfold bind at 1; rewrite Hw.
    unfold emit; rewrite T, <- !app_assoc; reflexivity.
Qed.

(** C3.  After one call for [(name, version)] (whether it returned or
    threw), the identity is in [downloadedPackages] and any further call
    with it returns at once with the state untouched; during the first
    call, re-entrant calls included, [GET /name/version] is sent at most
    once. *)
Theorem downloadTarball_idempotent fuel n v st st' :
  (walk fuel n v st = Ok tt st' \/ walk fuel n v st = Throw st') ->
  In (pkgSpec n v) (downloadedPackages st') /\
  (forall fuel', walk fuel' n v st' = Ok tt st') /\
  exists added, trace st' = trace st ++ added /\
                length (version_requests n v added) <= 1.
Proof.
  intros H.
  assert (K := walk_result_seen fuel n v st st' H).
  split; [exact K | split].
  - intros fuel'; apply walk_seen; exact K.
  - pose proof (walk_grows fuel n v st) as G.
    destruct H as [H|H]; rewrite H in G; simpl in G;
      destruct G as [added [T [_ [N _]]]]; exists added; split; auto;
      apply version_requests_at_most_once; exact N.
Qed.

(** C5.  Lines 61-89: when the destination file exists, nothing is
    requested and nothing changes; the file's contents are not looked at. *)
Theorem existing_file_skips_tarball_request url p st :
  In p (files st) -> fetchTarballIfMissing tarball_result url p st = Ok tt st.
Proof.
  intros H; apply has_In in H.
  unfold fetchTarballIfMissing, bind, exists_sync; rewrite H; reflexivity.
Qed.

(** C9.  A walk of [(name, version)] that throws leaves the identity in
    [downloadedPackages]; from then on (the set only grows) every call
    with it returns at once without a request. *)
Theorem failed_identity_never_retried fuel n v st st' :
  walk fuel n v st = Throw st' ->
  In (pkgSpec n v) (downloadedPackages st') /\
  forall st'', incl (downloadedPackages st') (downloadedPackages st'') ->
  forall fuel', walk fuel' n v st'' = Ok tt st''.
Proof.
  intros H.
  assert (K := walk_result_seen fuel n v st st' (or_intror H)).
  split; [exact K|].
  intros st'' Hincl fuel'; apply walk_seen; apply Hincl; exact K.
Qed.

(** C10.  For a fresh identity whose tarball file already exists, the
    walker still sends [GET /name/version] and then runs the whole
    dependency loop over every edge; only the tarball request is left out. *)
Theorem existing_tarball_still_walks_deps fuel n v st md url :
  ~ In (pkgSpec n v) (downloadedPackages st) ->
  registry_version n v = Some md ->
  dist_tarball md = Some url ->
  In (destPath_of url_basename url) (files st) ->
  walk fuel n v st = dep_loop fuel (deps_of md) (after_version_request st n v).
Proof.
  intros Hfresh Hmd Hurl Hfile.
  rewrite walk_fresh by exact Hfresh; rewrite Hmd, Hurl.
  rewrite (bind_Ok _ _ _ tt (after_version_request st n v)); [reflexivity|].
  apply existing_file_skips_tarball_request; exact Hfile.
Qed.

Lemma unseen_mono L s1 s2 : incl s1 s2 -> unseen L s2 <= unseen L s1.
Proof.
  intros Hi; unfold unseen; induction L as [|k L' IH]; simpl; [lia|].
  destruct (has k s1) eqn:E1.
  - assert (E2 : has k s2 = true) by (apply has_In, Hi, has_In, E1).
    rewrite E2; simpl; exact IH.
  - destruct (has k s2); simpl; lia.
Qed.

Lemma unseen_lt L k s : In k L -> ~ In k s -> unseen L (k :: s) < unseen L s.
Proof.
  intros Hk Hs; unfold unseen; induction L as [|x L' IH]; [destruct Hk|].
  cbn [filter].
  assert (M := unseen_mono L' s (k :: s) (fun y Hy => or_intror Hy)).
  unfold unseen in M.
  destruct (String.eqb_spec x k) as [->|Hxk].
  - assert (E1 : has k (k :: s) = true) by (apply has_In; left; reflexivity).
    assert (E2 : has k s = false) by (apply has_false; exact Hs).
    rewrite E1, E2; cbn [negb length]; lia.
  - destruct Hk as [Hk|Hk]; [congruence|].
    specialize (IH Hk).
    destruct (has x (k :: s)) eqn:E1, (has x s) eqn:E2; cbn [negb length]; try lia.
    apply has_In in E2; apply has_false in E1; exfalso; apply E1; right; exact E2.
Qed.

Lemma unseen_le_length L s : unseen L s <= length L.
Proof. unfold unseen; apply filter_length_le. Qed.

(** ** Termination on a finite registry *)

Section Termination.

(** The identities listed in the registry's documents. *)
Variable U : list string.
Hypothesis maxSatisfying_in :
  forall vs r v, maxSatisfying vs r = Some v -> In v vs.
Hypothesis registry_finite :
  forall d vs v, registry_packument d = Some vs -> In v vs -> In (pkgSpec d v) U.

Lemma walk_not_oof fuel : forall n v st,
  (~ In (pkgSpec n v) (downloadedPackages st) ->
   unseen U (pkgSpec n v :: downloadedPackages st) < fuel) ->
  walk fuel n v st <> OutOfFuel.
Proof.
  induction fuel as [|f IHf]; intros n v st Hm;
    (destruct (in_dec String.string_dec (pkgSpec n v) (downloadedPackages st)) as [Hin|Hin];
     [rewrite walk_seen by exact Hin; discriminate|]);
    specialize (Hm Hin); [lia|].
  rewrite walk_fresh by exact Hin.
  destruct (registry_version n v) as [md|]; [|discriminate].
  destruct (dist_tarball md) as [url|]; [|discriminate].
  apply bind_not_oof; [apply fetch_tarball_not_oof|].
  intros [] s1 E1.
  assert (G1 : grows (after_version_request st n v) s1).
  { pose proof (fetch_tarball_grows url (destPath_of url_basename url)
                  (after_version_request st n v)) as G; rewrite E1 in G; exact G. }
  assert (Hincl : incl (pkgSpec n v :: downloadedPackages st) (downloadedPackages s1))
    by (apply (grows_incl _ _ G1)).
  clear E1 G1.
  unfold processDeps; revert s1 Hincl; induction (deps_of md) as [|[d r] rest IHr];
    intros s1 Hincl; cbn [for_each]; [discriminate|].
  apply bind_not_oof.
  - unfold processDep; apply bind_not_oof; [apply fetchPackageMetadata_not_oof|].
    intros vs s2 E2.
    destruct (fetchPackageMetadata_Ok _ _ _ _ _ E2) as [Hd ->].
    destruct (maxSatisfying vs r) as [v'|] eqn:Hv; [|discriminate].
    apply IHf; intros Hfresh; simpl in *.
    assert (HU : In (pkgSpec d v') U)
      by (apply (registry_finite d vs v' Hd); apply (maxSatisfying_in vs r v' Hv)).
    pose proof (unseen_lt _ _ _ HU Hfresh).
    pose proof (unseen_mono U _ _ Hincl); lia.
  - intros [] s2 E2; apply IHr.
    pose proof (processDep_grows (S f) (fun f' Hf' => ltac:(injection Hf' as <-; exact (walk_grows f)))
                  (d, r) s1) as G.
    rewrite E2 in G; intros x Hx; apply (grows_incl _ _ G), Hincl, Hx.
Qed.

(** C8.  On a registry with finitely many identities, the walk from any
    state ends (fuel one more than the number of identities is never
    exhausted, cycles included), and it requests the version document of
    each identity at most once. *)
Theorem walk_terminates_fetching_once n v st :
  walk (S (length U)) n v st <> OutOfFuel /\
  forall st', (walk (S (length U)) n v st = Ok tt st' \/
               walk (S (length U)) n v st = Throw st') ->
  exists added, trace st' = trace st ++ added /\ NoDup (vkeys added).
Proof.
  split.
  - apply walk_not_oof; intros _.
    pose proof (unseen_le_length U (pkgSpec n v :: downloadedPackages st)); lia.
  - intros st' H; pose proof (walk_grows (S (length U)) n v st) as G.
    destruct H as [H|H]; rewrite H in G; destruct G as [added [T [_ [N _]]]];
      exists added; auto.
Qed.

End Termination.

End WalkerFacts.

End NpmFacts.

(** ** [semver.maxSatisfying] *)

Module SemverFacts.
Import Semver.

Section MaxFacts.

Variable valid_range : string -> bool.
Variable test : string -> string -> bool.
Variable compare : string -> string -> comparison.

(** [SemVer.compare] is a total preorder. *)
Hypothesis compare_antisym : forall a b, compare b a = CompOpp (compare a b).
Hypothesis compare_trans :
  forall a b c, compare a b <> Gt -> compare b c = Lt -> compare a c = Lt.

Abbreviation maxSat := (maxSatisfying valid_range test compare).

Lemma compare_refl a : compare a a = Eq.
Proof. pose proof (compare_antisym a a) as H; destruct (compare a a); simpl in H; congruence. Qed.

Definition best (R : string) (seen : list string) (acc : option string) : Prop :=
  (acc = None -> forall w, In w seen -> test R w = false) /\
  (forall m, acc = Some m ->
     In m seen /\ test R m = true /\
     forall w, In w seen -> test R w = true -> compare m w <> Lt).

Definition step (R : string) (max : option string) (v : string) : option string :=
  if test R v then
    match max with
    | None => Some v
    | Some m => match compare m v with Lt => Some v | _ => max end
    end
  else max.

Lemma best_step R seen acc x :
  best R seen acc -> best R (seen ++ [x]) (step R acc x).
Proof.
  intros [HN HS]; unfold step.
  destruct (test R x) eqn:Tx.
  - destruct acc as [m|].
    + destruct (HS m eq_refl) as [Im [Tm Bm]].
      destruct (compare m x) eqn:C.
      * split; [discriminate|]; intros m' [= <-]; repeat split.
        -- apply in_or_app; left; exact Im.
        -- exact Tm.
        -- intros w Hw Tw; apply in_app_or in Hw as [Hw|[<-|[]]]; [now apply Bm|].
           rewrite C; discriminate.
      * split; [discriminate|]; intros m' [= <-]; repeat split.
        -- apply in_or_app; right; left; reflexivity.
        -- exact Tx.
        -- intros w Hw Tw; apply in_app_or in Hw as [Hw|[<-|[]]];
             [|rewrite compare_refl; discriminate].
           assert (Hwm : compare w m <> Gt).
           { rewrite compare_antisym; specialize (Bm w Hw Tw).
             destruct (compare m w); simpl; congruence. }
           rewrite compare_antisym, (compare_trans w m x Hwm C); discriminate.
      * split; [discriminate|]; intros m' [= <-]; repeat split.
        -- apply in_or_app; left; exact Im.
        -- exact Tm.
        -- intros w Hw Tw; apply in_app_or in Hw as [Hw|[<-|[]]]; [now apply Bm|].
           rewrite C; discriminate.
    + split; [discriminate|]; intros m [= <-]; repeat split.
      * apply in_or_app; right; left; reflexivity.
      * exact Tx.
      * intros w Hw Tw; apply in_app_or in Hw as [Hw|[<-|[]]].
        -- rewrite (HN eq_refl w Hw) in Tw; discriminate.
        -- rewrite compare_refl; discriminate.
  - split.
    + intros Hacc w Hw; apply in_app_or in Hw as [Hw|[<-|[]]]; [now apply HN|exact Tx].
    + intros m Hm; destruct (HS m Hm) as [Im [Tm Bm]]; repeat split.
      * apply in_or_app; left; exact Im.
      * exact Tm.
      * intros w Hw Tw; apply in_app_or in Hw as [Hw|[<-|[]]]; [now apply Bm|].
        rewrite Tx in Tw; discriminate.
Qed.

Lemma best_fold R l : forall seen acc,
  best R seen acc -> best R (seen ++ l) (fold_left (step R) l acc).
Proof.
  induction l as [|x l IH]; intros seen acc H; simpl.
  - rewrite app_nil_r; exact H.
  - replace (seen ++ x :: l) with ((seen ++ [x]) ++ l) by (rewrite <- app_assoc; reflexivity).
    apply IH, best_step, H.
Qed.

Lemma maxSat_best V R : valid_range R = true -> best R V (maxSat V R).
Proof.
  intros Hv; unfold maxSatisfying; rewrite Hv.
  apply (best_fold R V []); split; [intros _ w []|intros m [=]].
Qed.

Lemma maxSat_none V R :
  maxSat V R = None <-> valid_range R = false \/ forall v, In v V -> test R v = false.
Proof.
  destruct (valid_range R) eqn:Hv.
  - destruct (maxSat_best V R Hv) as [HN HS]; split.
    + intros H; right; exact (HN H).
    + intros [H|H]; [discriminate|].
      destruct (maxSat V R) as [m|]; [|reflexivity].
      destruct (HS m eq_refl) as [Im [Tm _]]; rewrite (H m Im) in Tm; discriminate.
  - unfold maxSatisfying; rewrite Hv; split; auto.
Qed.

Lemma maxSat_some V R m :
  maxSat V R = Some m ->
  In m V /\ test R m = true /\
  forall w, In w V -> test R w = true -> compare m w <> Lt.
Proof.
  intros H; destruct (valid_range R) eqn:Hv.
  - exact (proj2 (maxSat_best V R Hv) m H).
  - unfold maxSatisfying in H; rewrite Hv in H; discriminate.
Qed.

(** The answer comes first among the satisfying versions equal to it:
    every satisfying version enumerated before it is strictly lower. *)
Definition first (R : string) (seen : list string) (acc : option string) : Prop :=
  forall m, acc = Some m ->
    exists pre post, seen = pre ++ m :: post /\
      forall w, In w pre -> test R w = true -> compare w m = Lt.

Lemma first_step R seen acc x :
  best R seen acc -> first R seen acc -> first R (seen ++ [x]) (step R acc x).
Proof.
  intros [HN HS] HF m Hm; unfold step in Hm.
  destruct (test R x) eqn:Tx.
  - destruct acc as [m0|].
    + destruct (compare m0 x) eqn:C.
      * destruct (HF m0 eq_refl) as [pre [post [E P]]]; injection Hm as <-.
        exists pre, (post ++ [x]); split; [rewrite E, <- app_assoc; reflexivity | exact P].
      * injection Hm as <-; exists seen, []; split; [reflexivity|].
        intros w Hw Tw; destruct (HS m0 eq_refl) as [_ [_ B]].
        apply (compare_trans w m0 x); [|exact C].
        rewrite compare_antisym; specialize (B w Hw Tw).
        destruct (compare m0 w); simpl; congruence.
      * destruct (HF m0 eq_refl) as [pre [post [E P]]]; injection Hm as <-.
        exists pre, (post ++ [x]); split; [rewrite E, <- app_assoc; reflexivity | exact P].
    + injection Hm as <-; exists seen, []; split; [reflexivity|].
      intros w Hw Tw; rewrite (HN eq_refl w Hw) in Tw; discriminate.
  - destruct (HF m Hm) as [pre [post [E P]]].
    exists pre, (post ++ [x]); split; [rewrite E, <- app_assoc; reflexivity | exact P].
Qed.

Lemma first_fold R l : forall seen acc,
  best R seen acc -> first R seen acc -> first R (seen ++ l) (fold_left (step R) l acc).
Proof.
  induction l as [|x l IH]; intros seen acc B F; simpl.
  - rewrite app_nil_r; exact F.
  - replace (seen ++ x :: l) with ((seen ++ [x]) ++ l) by (rewrite <- app_assoc; reflexivity).
    apply IH; [apply best_step, B | apply first_step; assumption].
Qed.

Lemma maxSat_first V R m :
  maxSat V R = Some m ->
  exists pre post, V = pre ++ m :: post /\
    forall w, In w pre -> test R w = true -> compare w m = Lt.
Proof.
  intros H; destruct (valid_range R) eqn:Hv.
  - unfold maxSatisfying in H; rewrite Hv in H.
    apply (first_fold R V [] None); [split; [intros _ w []|intros m' [=]] | intros m' [=] | exact H].
  - unfold maxSatisfying in H; rewrite Hv in H; discriminate.
Qed.

(** C4 (as the code does it).  [maxSatisfying] answers [null] exactly when
    the range does not parse or no version satisfies it; otherwise it
    answers a satisfying version of the list that no satisfying version
    exceeds; two enumerations of the same versions give answers that are
    equal in semver precedence (but not necessarily the same string); and
    the answer is the first of its ties in the enumeration: every
    satisfying version enumerated before it is strictly lower, so of
    versions differing only in build metadata the first one wins. *)
Theorem maxSatisfying_maximal V R :
  (maxSatisfying valid_range test compare V R = None <->
     valid_range R = false \/ forall v, In v V -> test R v = false) /\
  (forall m, maxSatisfying valid_range test compare V R = Some m ->
     In m V /\ test R m = true /\
     forall w, In w V -> test R w = true -> compare m w <> Lt) /\
  (forall V', Permutation V V' ->
     match maxSatisfying valid_range test compare V R,
           maxSatisfying valid_range test compare V' R with
     | None, None => True
     | Some a, Some b => compare a b = Eq
     | _, _ => False
     end) /\
  (forall m, maxSatisfying valid_range test compare V R = Some m ->
     exists pre post, V = pre ++ m :: post /\
       forall w, In w pre -> test R w = true -> compare w m = Lt).
Proof.
  split; [apply maxSat_none|split; [apply maxSat_some|split; [|apply maxSat_first]]].
  intros V' P.
  destruct (maxSat V R) as [a|] eqn:Ea, (maxSat V' R) as [b|] eqn:Eb; auto.
  - destruct (maxSat_some V R a Ea) as [Ia [Ta Ba]].
    destruct (maxSat_some V' R b Eb) as [Ib [Tb Bb]].
    specialize (Ba b (Permutation_in _ (Permutation_sym P) Ib) Tb).
    specialize (Bb a (Permutation_in _ P Ia) Ta).
    rewrite compare_antisym in Bb.
    destruct (compare a b); simpl in *; congruence.
  - destruct (maxSat_some V R a Ea) as [Ia [Ta _]].
    apply maxSat_none in Eb as [Eb|Eb].
    + unfold maxSatisfying in Ea; rewrite Eb in Ea; discriminate.
    + rewrite (Eb a (Permutation_in _ P Ia)) in Ta; discriminate.
  - destruct (maxSat_some V' R b Eb) as [Ib [Tb _]].
    apply maxSat_none in Ea as [Ea|Ea].
    + unfold maxSatisfying in Eb; rewrite Ea in Eb; discriminate.
    + rewrite (Ea b (Permutation_in _ (Permutation_sym P) Ib)) in Tb; discriminate.
Qed.

End MaxFacts.

(** The fragment's comparison is a total preorder. *)

Definition lex_lt (x y : nat * nat * nat) : Prop :=
  let '(a1, b1, c1) := x in
  let '(a2, b2, c2) := y in
  a1 < a2 \/ (a1 = a2 /\ (b1 < b2 \/ (b1 = b2 /\ c1 < c2))).

Lemma compare_main_lt x y : compare_main x y = Lt <-> lex_lt x y.
Proof.
  destruct x as [[a1 b1] c1], y as [[a2 b2] c2]; simpl.
  destruct (Nat.compare_spec a1 a2), (Nat.compare_spec b1 b2), (Nat.compare_spec c1 c2);
    split; intros Hc; try lia; try discriminate; try reflexivity.
Qed.

Lemma compare_main_eq x y : compare_main x y = Eq <-> x = y.
Proof.
  destruct x as [[a1 b1] c1], y as [[a2 b2] c2]; simpl.
  destruct (Nat.compare_spec a1 a2), (Nat.compare_spec b1 b2), (Nat.compare_spec c1 c2);
    split; intros Hc; try discriminate; try (injection Hc; lia); subst; reflexivity.
Qed.

Lemma compare_main_antisym x y : compare_main y x = CompOpp (compare_main x y).
Proof.
  destruct x as [[a1 b1] c1], y as [[a2 b2] c2]; simpl.
  rewrite (Nat.compare_antisym a1 a2), (Nat.compare_antisym b1 b2),
          (Nat.compare_antisym c1 c2).
  destruct (a1 ?= a2)%nat, (b1 ?= b2)%nat; reflexivity.
Qed.

Lemma compare_main_trans x y z :
  compare_main x y <> Gt -> compare_main y z = Lt -> compare_main x z = Lt.
Proof.
  intros H1 H2.
  assert (H1' : compare_main x y = Lt \/ x = y).
  { destruct (compare_main x y) eqn:E; auto; [right; apply compare_main_eq, E|congruence]. }
  apply compare_main_lt in H2; apply compare_main_lt.
  destruct H1' as [H1'|<-]; [|exact H2].
  apply compare_main_lt in H1'.
  destruct x as [[a1 b1] c1], y as [[a2 b2] c2], z as [[a3 b3] c3]; simpl in *; lia.
Qed.

Lemma frag_compare_antisym a b : frag_compare b a = CompOpp (frag_compare a b).
Proof. apply compare_main_antisym. Qed.

Lemma frag_compare_trans a b c :
  frag_compare a b <> Gt -> frag_compare b c = Lt -> frag_compare a c = Lt.
Proof. apply compare_main_trans. Qed.

End SemverFacts.

(** ** The Docker puller *)

Module DockerFacts.
Import Docker.

Definition extends (st st' : state) : Prop := exists t, trace st' = trace st ++ t.

Lemma extends_refl st : extends st st.
Proof. exists []; rewrite app_nil_r; reflexivity. Qed.

Lemma extends_trans a b c : extends a b -> extends b c -> extends a c.
Proof.
  intros [t1 T1] [t2 T2]; exists (t1 ++ t2); rewrite T2, T1, app_assoc; reflexivity.
Qed.

Lemma docker_has_In k l : has k l = true <-> In k l.
Proof.
  unfold has; rewrite existsb_exists; split.
  - intros [x [Hx Heq]]; apply String.eqb_eq in Heq; subst; exact Hx.
  - intros H; exists k; split; [exact H | apply String.eqb_refl].
Qed.

Section PullerFacts.

Variable tar : tar_version.
Variable auth_token : string -> option string.
Variable manifest_get : string -> string -> option Response.
Variable blob_ok : string -> string -> bool.
Variable tags_get : string -> option (option (list string)).
Variable sort_tags : list string -> list string.
Variable promptTag : list string -> string.
Variable promptPlatform : list string -> nat.

Abbreviation layer := (fetchLayer tar blob_ok).
Abbreviation concrete := (pullConcrete tar blob_ok).
Abbreviation pull := (pullImage tar auth_token manifest_get blob_ok promptPlatform).
Abbreviation download_all :=
  (downloadAll tar auth_token manifest_get blob_ok tags_get sort_tags promptTag promptPlatform).

(** The pack of a pull to [p] as the code can leave it: not finalized,
    at most one header pushed, and a header pushed once an entry is open. *)
Definition pack_ok (p : string) (pk : Pack) : Prop :=
  pack_path pk = p /\ finalized pk = false /\ length (headers pk) <= 1 /\
  (piping pk = false -> headers pk = []).

(** A state during a pull to [p] started from [st]. *)
Definition pulling (st : state) (p : string) (s : state) : Prop :=
  extends st s /\ In p (files s) /\ exists pk, packs s = pk :: packs st /\ pack_ok p pk.

Lemma pulling_emit st p e s :
  pulling st p s ->
  pulling st p {| files := files s; packs := packs s; trace := trace s ++ [e] |}.
Proof.
  intros [[x Hx] [Hf Hp]]; split; [|split; [exact Hf | exact Hp]].
  exists (x ++ [e]); simpl; rewrite Hx, app_assoc; reflexivity.
Qed.

Lemma pulling_on_pack st p s pk f :
  pulling st p s -> packs s = pk :: packs st -> pack_ok p (f pk) ->
  pulling st p {| files := files s; packs := f pk :: packs st; trace := trace s |}.
Proof.
  intros [[x Hx] [Hf _]] _ Hok; split; [exists x; exact Hx|split; [exact Hf|]].
  eexists; split; [reflexivity | exact Hok].
Qed.

Lemma pack_entry_pulling st p n s :
  pulling st p s ->
  pack_entry tar n s = Throw s \/
  exists s', pack_entry tar n s = Ok tt s' /\ pulling st p s' /\
             exists pk, packs s' = pk :: packs st /\ piping pk = true.
Proof.
  intros G; pose proof G as [_ [_ [pk [Hpk Hok]]]].
  pose proof Hok as [Hp [Hfin [Hlen Hpip]]].
  unfold pack_entry; rewrite Hpk.
  destruct tar; destruct (piping pk) eqn:Ep; rewrite ?Hfin;
    [left; reflexivity| | |]; right; unfold on_pack; cbv beta; rewrite Hpk;
    eexists; (split; [reflexivity|]);
    (split; [apply (pulling_on_pack _ _ _ pk _ G Hpk) | eexists; split; [reflexivity|]]);
    unfold pack_ok, open_entry, queue_entry in *; simpl; rewrite ?Ep;
    try reflexivity; try rewrite (Hpip eq_refl); simpl;
    repeat split; auto; discriminate.
Qed.

Lemma pack_finalize_pulling st p s pk :
  pulling st p s -> packs s = pk :: packs st -> piping pk = true ->
  exists s', pack_finalize s = Ok tt s' /\ pulling st p s'.
Proof.
  intros G Hpk Ep; pose proof G as [_ [_ [pk' [Hpk' Hok]]]].
  rewrite Hpk in Hpk'; injection Hpk' as <-.
  unfold pack_finalize, on_pack; rewrite Hpk, Ep; simpl.
  eexists; split; [reflexivity|].
  destruct G as [[x Hx] [Hf _]]; split; [exists x; exact Hx | split; [exact Hf|]].
  eexists; split; [reflexivity|].
  destruct Hok as [Hp [Hfin [Hlen _]]]; unfold pack_ok; simpl;
    repeat split; auto; discriminate.
Qed.

Lemma layer_pulling st p name token l s :
  pulling st p s -> exists s', layer name token l s = Ok tt s' /\ pulling st p s'.
Proof.
  intros G.
  set (s1 := {| files := files s; packs := packs s; trace := trace s ++ [ReqBlob name l] |}).
  assert (G1 : pulling st p s1) by (apply pulling_emit; exact G).
  unfold fetchLayer, try_catch.
  assert (E : forall k : unit -> M state unit, bind (getBlob blob_ok name l) k s =
                        if blob_ok name l then k tt s1 else Throw s1)
    by (intros k; unfold getBlob, bind, emit, ret, throw; simpl;
        destruct (blob_ok name l); reflexivity).
  rewrite E; clear E.
  destruct (blob_ok name l).
  - destruct (pack_entry_pulling st p (layer_entry_name l) s1 G1)
      as [H|[s' [H [Hs' _]]]]; rewrite H.
    + eexists; split; [reflexivity | apply pulling_emit; exact G1].
    + exists s'; split; [reflexivity | exact Hs'].
  - eexists; split; [reflexivity | apply pulling_emit; exact G1].
Qed.

Lemma layers_pulling st p name token ls : forall s,
  pulling st p s ->
  exists s', for_each (layer name token) ls s = Ok tt s' /\ pulling st p s'.
Proof.
  induction ls as [|l ls IH]; intros s G; cbn [for_each].
  - exists s; split; [reflexivity | exact G].
  - destruct (layer_pulling st p name token l s G) as [s1 [E1 G1]].
    rewrite (bind_Ok _ _ _ _ _ E1); exact (IH s1 G1).
Qed.

Lemma pack_new_pulling st p : exists s, pack_new p st = Ok tt s /\ pulling st p s.
Proof.
  eexists; split; [reflexivity|]; split; [exists []; simpl; rewrite app_nil_r; reflexivity|].
  simpl; split.
  - destruct (has p (files st)) eqn:E; [apply docker_has_In; exact E | left; reflexivity].
  - eexists; split; [reflexivity|]; unfold pack_ok; simpl; repeat split; auto.
Qed.

(** Whatever happens during the pull of a concrete manifest to [p], it
    returns or throws (it never exits), the file [p] exists, and the pack
    it piped into [p] is left as [pack_ok] describes. *)
Lemma concrete_run name token m p st :
  exists s, (concrete name token m p st = Ok tt s \/ concrete name token m p st = Throw s) /\
            pulling st p s.
Proof.
  destruct (pack_new_pulling st p) as [s0 [E0 G0]].
  unfold pullConcrete; rewrite (bind_Ok _ _ _ _ _ E0).
  destruct (layers_pulling st p name token (layers m) s0 G0) as [s1 [E1 G1]].
  rewrite (bind_Ok _ _ _ _ _ E1).
  destruct (config m) as [cfg|]; [|exists s1; split; [right; reflexivity | exact G1]].
  set (s2 := {| files := files s1; packs := packs s1; trace := trace s1 ++ [ReqBlob name cfg] |}).
  assert (G2 : pulling st p s2) by (apply pulling_emit; exact G1).
  assert (E : forall k : unit -> M state unit, bind (getBlob blob_ok name cfg) k s1 =
                        if blob_ok name cfg then k tt s2 else Throw s2)
    by (intros k; unfold getBlob, bind, emit, ret, throw; simpl;
        destruct (blob_ok name cfg); reflexivity).
  rewrite E; clear E.
  destruct (blob_ok name cfg); [|exists s2; split; [right; reflexivity | exact G2]].
  destruct (pack_entry_pulling st p "config.json" s2 G2) as [H|[s3 [H [G3 [pk [Hpk Ep]]]]]].
  - exists s2; split; [right; unfold bind; rewrite H; reflexivity | exact G2].
  - rewrite (bind_Ok _ _ _ _ _ H).
    destruct (pack_finalize_pulling st p s3 pk G3 Hpk Ep) as [s4 [H4 G4]].
    rewrite (bind_Ok _ _ _ _ _ H4).
    eexists; split; [left; reflexivity | apply pulling_emit; exact G4].
Qed.

Lemma concrete_extends name token m p st :
  res_ok (extends st) (concrete name token m p st).
Proof.
  destruct (concrete_run name token m p st) as [s [[H|H] [G _]]]; rewrite H; exact G.
Qed.

Lemma concrete_not_oof name token m p st : concrete name token m p st <> OutOfFuel.
Proof.
  destruct (concrete_run name token m p st) as [s [[H|H] _]]; rewrite H; discriminate.
Qed.


(** C7 (as the code does it).  [pack.entry] is given the response stream
    of the blob as its second argument, which tar-stream does not read:
    the entry gets a header of size 0 and stays open.  So, whatever the
    layers and the configuration, the pull of a concrete manifest leaves
    the archive at [destPath] with at most one entry header and never
    finalized: [pack.finalize()] only defers, and the end-of-archive
    blocks are never written.  With tar-stream 2.x the second entry even
    throws (see [DockerChecks.failed_layer_archive_unfinished]). *)
Theorem pull_never_finalizes_archive name token m destPath st :
  exists s pk,
    (pullConcrete tar blob_ok name token m destPath st = Ok tt s \/
     pullConcrete tar blob_ok name token m destPath st = Throw s) /\
    In destPath (files s) /\
    packs s = pk :: packs st /\
    pack_path pk = destPath /\
    finalized pk = false /\
    length (headers pk) <= 1.
Proof.
  destruct (concrete_run name token m destPath st)
    as [s [H [_ [Hf [pk [Hpk [Hp [Hfin [Hlen _]]]]]]]]].
  exists s, pk; repeat split; assumption.
Qed.

(** C6.  When the first manifest is a manifest list or an OCI index, the
    platforms are offered to the prompt (which has no default), and the
    next request is for the manifest whose reference is the digest of the
    entry the prompt chose. *)
Theorem index_selection_fetches_digest name tag destPath st t r d :
  auth_token name = Some t ->
  manifest_get name tag = Some r ->
  is_index (mediaTypeOf r) = true ->
  nth_error (manifests (data r)) (promptPlatform (map choice_name (manifests (data r))))
    = Some d ->
  exists st' rest,
    (pull name tag destPath st = Ok tt st' \/ pull name tag destPath st = Throw st') /\
    trace st' = trace st ++
      [ReqToken name; ReqManifest name tag acceptAll;
       PromptPlatform (map choice_name (manifests (data r)));
       ReqManifest name (digest d) acceptConcrete] ++ rest.
Proof.
  intros Ht Hr Hi Hd.
  unfold pullImage, getToken, getManifest, bind, emit, ret, throw; simpl.
  rewrite Ht; simpl; rewrite Hr; simpl; rewrite Hi; simpl; rewrite Hd; simpl.
  destruct (manifest_get name (digest d)) as [r'|]; simpl.
  - destruct (is_concrete (mediaTypeOf r')).
    + match goal with
      | |- context [pullConcrete tar blob_ok name t (data r') destPath ?s] =>
          pose proof (concrete_extends name t (data r') destPath s) as G;
          pose proof (concrete_not_oof name t (data r') destPath s) as N;
          destruct (pullConcrete tar blob_ok name t (data r') destPath s) as [[] s'|s'|c s'|];
          simpl in G; try contradiction; try (exfalso; apply N; reflexivity);
          destruct G as [x Hx]; exists s', x; rewrite Hx; simpl
      end;
      (split; [now left | rewrite <- !app_assoc; reflexivity]) ||
      (split; [now right | rewrite <- !app_assoc; reflexivity]).
    + eexists; exists [Unsupported]; split; [left; reflexivity|].
      simpl; rewrite <- !app_assoc; reflexivity.
  - eexists; exists []; split; [right; reflexivity|].
    simpl; rewrite <- !app_assoc; reflexivity.
Qed.

(** C2 (as the code does it).  An image given without a tag whose tag
    list is missing or empty makes [selectTag] report it and call
    [process.exit(1)]: the whole batch ends there, and the images after it
    are never processed. *)
Theorem no_tags_exits_batch pre img rest st st1 t :
  download_all pre st = Ok tt st1 ->
  image_tag img = "" ->
  auth_token (image_name img) = Some t ->
  tags_get (image_name img) = Some None \/ tags_get (image_name img) = Some (Some []) ->
  download_all (pre ++ img :: rest) st =
  Exit 1 {| files := files st1; packs := packs st1;
            trace := trace st1 ++ [ReqToken (image_name img); ReqTags (image_name img); NoTags] |}.
Proof.
  intros Hpre Htag Ht Htags.
  unfold downloadAll in *; rewrite for_each_app, (bind_Ok _ _ _ _ _ Hpre).
  cbn [for_each]; unfold bind at 1, downloadDockerImage; rewrite Htag; simpl.
  unfold selectTag, try_catch, getToken, bind, emit, ret, throw, exit; simpl.
  rewrite Ht; simpl.
  destruct Htags as [Htags|Htags]; rewrite Htags; simpl; rewrite <- !app_assoc; reflexivity.
Qed.

End PullerFacts.

End DockerFacts.

(** * Concrete runs *)

Module Checks.
Import Npm NpmSample.

Abbreviation cycle_walk :=
  (downloadTarball cycle_version cycle_packument all_complete last_segment
     Semver.frag_maxSatisfying).
Abbreviation failing_walk :=
  (downloadTarball cycle_version cycle_packument a_fails last_segment
     Semver.frag_maxSatisfying).
Abbreviation edges_walk :=
  (downloadTarball edges_version edges_packument all_complete last_segment
     Semver.frag_maxSatisfying).
Abbreviation edges_dep :=
  (processDep edges_version edges_packument all_complete last_segment
     Semver.frag_maxSatisfying).
Abbreviation edges_deps :=
  (processDeps edges_version edges_packument all_complete last_segment
     Semver.frag_maxSatisfying).

Definition first_version (_ : string) (vs : list string) : string := hd "" vs.

Lemma frag_maxSatisfying_in vs r v :
  Semver.frag_maxSatisfying vs r = Some v -> In v vs.
Proof.
  intros H; apply (SemverFacts.maxSat_some _ _ _ SemverFacts.frag_compare_antisym
                    SemverFacts.frag_compare_trans vs r v H).
Qed.

Definition cycle_ids : list string := ["a@1.0.0"; "b@1.0.0"].

Lemma cycle_finite d vs v :
  cycle_packument d = Some vs -> In v vs -> In (pkgSpec d v) cycle_ids.
Proof.
  unfold cycle_packument; intros H Hv.
  destruct (String.eqb_spec d "a") as [->|_]; simpl in H;
    [|destruct (String.eqb_spec d "b") as [->|_]; simpl in H; [|discriminate]];
    injection H as <-; destruct Hv as [<-|[]]; simpl; auto.
Qed.

(** C1: the failing [left] edge stops the walk of [app@1.0.0] before its
    sibling [right] is looked at. *)
Lemma left_failure_skips_right :
  exists st', edges_walk 3 "app" "1.0.0" empty_state = Throw st' /\
              ~ In (ReqPackument "right") (trace st') /\
              ~ In (ReqVersion "right" "1.0.0") (trace st').
Proof.
  eexists; split; [vm_compute; reflexivity|].
  simpl; split; intros H; repeat (destruct H as [H|H]; [discriminate|]); exact H.
Qed.

Definition no_version (_ : list string) (_ : string) : option string := None.
Definition every_packument (_ : string) : option (list string) := Some ["1.0.0"].

Lemma edge_failure_aborts_siblings_witness :
  edges_walk 3 "app" "1.0.0" empty_state =
  Throw {| downloadedPackages := ["app@1.0.0"]; files := ["downloads/npm-packages/app-1.0.0.tgz"];
           trace := [ReqVersion "app" "1.0.0"; ReqTarball (tgz "app" "1.0.0");
                     ReqPackument "left"; MetadataError "left"] |} /\
  downloadTarball edges_version every_packument all_complete last_segment no_version
    3 "app" "1.0.0" empty_state =
  processDeps edges_version every_packument all_complete last_segment no_version
    3 [("right", "*")]
    {| downloadedPackages := ["app@1.0.0"]; files := ["downloads/npm-packages/app-1.0.0.tgz"];
       trace := [ReqVersion "app" "1.0.0"; ReqTarball (tgz "app" "1.0.0");
                 ReqPackument "left"; NoMatch "left" "*"] |} /\
  exists added,
    processPackage edges_version edges_packument all_complete last_segment
      Semver.frag_maxSatisfying first_version 3 "app" empty_state =
    Ok tt {| downloadedPackages := ["app@1.0.0"];
             files := ["downloads/npm-packages/app-1.0.0.tgz"];
             trace := ReqPackument "app" :: added ++ [PackageError "app"] |}.
Proof.
  split; [|split].
  - apply (proj1 (proj2 (NpmFacts.edge_failure_aborts_siblings edges_version
                  edges_packument all_complete last_segment Semver.frag_maxSatisfying
                  first_version))
             3 "app" "1.0.0" empty_state (meta "app" "1.0.0" [("left", "*"); ("right", "*")])
             (tgz "app" "1.0.0") [] ("left", "*") [("right", "*")]
             {| downloadedPackages := ["app@1.0.0"];
                files := ["downloads/npm-packages/app-1.0.0.tgz"];
                trace := [ReqVersion "app" "1.0.0"; ReqTarball (tgz "app" "1.0.0")] |}
             {| downloadedPackages := ["app@1.0.0"];
                files := ["downloads/npm-packages/app-1.0.0.tgz"];
                trace := [ReqVersion "app" "1.0.0"; ReqTarball (tgz "app" "1.0.0")] |});
      try (vm_compute; reflexivity).
    simpl; intros [].
  - apply (proj1 (proj2 (proj2 (NpmFacts.edge_failure_aborts_siblings edges_version
                  every_packument all_complete last_segment no_version first_version)))
             3 "app" "1.0.0" empty_state (meta "app" "1.0.0" [("left", "*"); ("right", "*")])
             (tgz "app" "1.0.0") [] "left" "*" ["1.0.0"] [("right", "*")]
             {| downloadedPackages := ["app@1.0.0"];
                files := ["downloads/npm-packages/app-1.0.0.tgz"];
                trace := [ReqVersion "app" "1.0.0"; ReqTarball (tgz "app" "1.0.0")] |}
             {| downloadedPackages := ["app@1.0.0"];
                files := ["downloads/npm-packages/app-1.0.0.tgz"];
                trace := [ReqVersion "app" "1.0.0"; ReqTarball (tgz "app" "1.0.0")] |});
      try (vm_compute; reflexivity).
    simpl; intros [].
  - destruct (proj2 (proj2 (proj2 (NpmFacts.edge_failure_aborts_siblings edges_version
                  edges_packument all_complete last_segment Semver.frag_maxSatisfying
                  first_version)))
             3 "app" ["1.0.0"] empty_state
             {| downloadedPackages := ["app@1.0.0"];
                files := ["downloads/npm-packages/app-1.0.0.tgz"];
                trace := [ReqPackument "app"; ReqVersion "app" "1.0.0";
                          ReqTarball (tgz "app" "1.0.0");
                          ReqPackument "left"; MetadataError "left"] |})
      as [added [_ [_ H]]]; [reflexivity | vm_compute; reflexivity |].
    exists added; exact H.
Defined.

Lemma downloadTarball_idempotent_witness :
  exists st', cycle_walk 3 "a" "1.0.0" empty_state = Ok tt st' /\
    (In (pkgSpec "a" "1.0.0") (downloadedPackages st') /\
     (forall fuel', cycle_walk fuel' "a" "1.0.0" st' = Ok tt st') /\
     exists added, trace st' = trace empty_state ++ added /\
                   length (version_requests "a" "1.0.0" added) <= 1).
Proof.
  eexists; split; [vm_compute; reflexivity|].
  apply (NpmFacts.downloadTarball_idempotent cycle_version cycle_packument all_complete
           last_segment Semver.frag_maxSatisfying 3 "a" "1.0.0" empty_state).
  left; vm_compute; reflexivity.
Defined.

Definition tarball_a : string := "downloads/npm-packages/a-1.0.0.tgz".

Definition with_tarball_a : state :=
  {| downloadedPackages := []; files := [tarball_a]; trace := [] |}.

Lemma existing_file_skips_tarball_request_witness :
  fetchTarballIfMissing all_complete (tgz "a" "1.0.0") tarball_a with_tarball_a
  = Ok tt with_tarball_a.
Proof.
  apply NpmFacts.existing_file_skips_tarball_request; simpl; left; reflexivity.
Defined.

Lemma walk_terminates_fetching_once_witness :
  cycle_walk (S (length cycle_ids)) "a" "1.0.0" empty_state <> OutOfFuel /\
  forall st', (cycle_walk (S (length cycle_ids)) "a" "1.0.0" empty_state = Ok tt st' \/
               cycle_walk (S (length cycle_ids)) "a" "1.0.0" empty_state = Throw st') ->
  exists added, trace st' = trace empty_state ++ added /\ NoDup (vkeys added).
Proof.
  apply (NpmFacts.walk_terminates_fetching_once cycle_version cycle_packument all_complete
           last_segment Semver.frag_maxSatisfying cycle_ids frag_maxSatisfying_in cycle_finite).
Defined.

Lemma failed_identity_never_retried_witness :
  exists st', failing_walk 3 "a" "1.0.0" empty_state = Throw st' /\
    (In (pkgSpec "a" "1.0.0") (downloadedPackages st') /\
     forall st'', incl (downloadedPackages st') (downloadedPackages st'') ->
     forall fuel', failing_walk fuel' "a" "1.0.0" st'' = Ok tt st'').
Proof.
  eexists; split; [vm_compute; reflexivity|].
  apply (NpmFacts.failed_identity_never_retried cycle_version cycle_packument a_fails
           last_segment Semver.frag_maxSatisfying 3 "a" "1.0.0" empty_state).
  vm_compute; reflexivity.
Defined.

Lemma existing_tarball_still_walks_deps_witness :
  cycle_walk 3 "a" "1.0.0" with_tarball_a =
  processDeps cycle_version cycle_packument all_complete last_segment
    Semver.frag_maxSatisfying 3 [("b", "*")]
    {| downloadedPackages := ["a@1.0.0"]; files := [tarball_a];
       trace := [ReqVersion "a" "1.0.0"] |}.
Proof.
  apply (NpmFacts.existing_tarball_still_walks_deps cycle_version cycle_packument
           all_complete last_segment Semver.frag_maxSatisfying 3 "a" "1.0.0"
           with_tarball_a (meta "a" "1.0.0" [("b", "*")]) (tgz "a" "1.0.0")).
  - simpl; intros [].
  - reflexivity.
  - reflexivity.
  - simpl; left; reflexivity.
Defined.

(** C4: two versions that differ only in build metadata tie in semver
    precedence, and the first one enumerated is returned. *)
Lemma build_metadata_order_dependent :
  ~ (forall V V' R, Permutation V V' ->
       Semver.frag_maxSatisfying V R = Semver.frag_maxSatisfying V' R).
Proof.
  intros H.
  specialize (H ["1.0.0+a"; "1.0.0+b"] ["1.0.0+b"; "1.0.0+a"] "*" (perm_swap _ _ _)).
  vm_compute in H; discriminate.
Qed.

Lemma maxSatisfying_maximal_witness :
  Semver.frag_maxSatisfying ["1.2.0"; "1.10.0"; "0.9.9"] "*" = Some "1.10.0" /\
  ((Semver.frag_maxSatisfying ["1.2.0"; "1.10.0"; "0.9.9"] "*" = None <->
    Semver.frag_valid_range "*" = false \/
    forall v, In v ["1.2.0"; "1.10.0"; "0.9.9"] -> Semver.frag_test "*" v = false) /\
   (forall m, Semver.frag_maxSatisfying ["1.2.0"; "1.10.0"; "0.9.9"] "*" = Some m ->
      In m ["1.2.0"; "1.10.0"; "0.9.9"] /\ Semver.frag_test "*" m = true /\
      forall w, In w ["1.2.0"; "1.10.0"; "0.9.9"] -> Semver.frag_test "*" w = true ->
      Semver.frag_compare m w <> Lt) /\
   (forall V', Permutation ["1.2.0"; "1.10.0"; "0.9.9"] V' ->
      match Semver.frag_maxSatisfying ["1.2.0"; "1.10.0"; "0.9.9"] "*",
            Semver.frag_maxSatisfying V' "*" with
      | None, None => True
      | Some a, Some b => Semver.frag_compare a b = Eq
      | _, _ => False
      end) /\
   (forall m, Semver.frag_maxSatisfying ["1.2.0"; "1.10.0"; "0.9.9"] "*" = Some m ->
      exists pre post, ["1.2.0"; "1.10.0"; "0.9.9"] = pre ++ m :: post /\
        forall w, In w pre -> Semver.frag_test "*" w = true -> Semver.frag_compare w m = Lt)).
Proof.
  split; [vm_compute; reflexivity|].
  apply (SemverFacts.maxSatisfying_maximal Semver.frag_valid_range Semver.frag_test
           Semver.frag_compare SemverFacts.frag_compare_antisym
           SemverFacts.frag_compare_trans).
Defined.

End Checks.

Module DockerChecks.
Import Docker DockerSample.

Abbreviation sample_all :=
  (downloadAll TarV3 any_token manifests_get first_layer_fails empty_tags (fun l => l)
     pick_first_tag pick_second).
Abbreviation sample_pull := (pullImage TarV3 any_token manifests_get first_layer_fails pick_second).

(** C2: the tagless [alpine] has no tags, and [busybox:1.36] is never
    requested. *)
Lemma empty_tags_stop_the_batch :
  exists st', sample_all ["alpine"; "busybox:1.36"] empty_state = Exit 1 st' /\
              ~ In (ReqToken "library/busybox") (trace st').
Proof.
  eexists; split; [vm_compute; reflexivity|].
  simpl; intros H; repeat (destruct H as [H|H]; [discriminate|]); exact H.
Qed.

Lemma no_tags_exits_batch_witness :
  sample_all ([] ++ "alpine" :: ["busybox:1.36"]) empty_state =
  Exit 1 {| files := []; packs := [];
            trace := [ReqToken "library/alpine"; ReqTags "library/alpine"; NoTags] |}.
Proof.
  apply (DockerFacts.no_tags_exits_batch TarV3 any_token manifests_get first_layer_fails
           empty_tags (fun l => l) pick_first_tag pick_second [] "alpine" ["busybox:1.36"]
           empty_state empty_state "tok").
  - reflexivity.
  - reflexivity.
  - reflexivity.
  - right; reflexivity.
Defined.

Lemma index_selection_fetches_digest_witness :
  exists st' rest,
    (sample_pull "library/alpine" "3.18" "downloads/docker-images/library_alpine_3.18.tar"
       empty_state = Ok tt st' \/
     sample_pull "library/alpine" "3.18" "downloads/docker-images/library_alpine_3.18.tar"
       empty_state = Throw st') /\
    trace st' = trace empty_state ++
      [ReqToken "library/alpine";
       ReqManifest "library/alpine" "3.18" acceptAll;
       PromptPlatform ["linux/amd64"; "linux/arm64"];
       ReqManifest "library/alpine" "sha256:arm" acceptConcrete] ++ rest.
Proof.
  apply (DockerFacts.index_selection_fetches_digest TarV3 any_token manifests_get
           first_layer_fails pick_second "library/alpine" "3.18"
           "downloads/docker-images/library_alpine_3.18.tar" empty_state "tok"
           {| data := alpine_index; content_type := "application/json" |}
           {| platform := linux "arm64"; digest := "sha256:arm" |});
    reflexivity.
Defined.

(** C7: [library/alpine:3.18] on arm64, the blob of the first layer
    failing.  With tar-stream 2.x the entry [config.json] throws
    [already piping an entry] behind the open entry of the second layer:
    [pack.finalize()] is never called and the image is reported as an
    error.  With 3.x [config.json] is queued behind that entry and
    [pack.finalize()] only records [_finalizing].  Either way the archive
    holds one header and no end-of-archive blocks. *)
Lemma failed_layer_archive_unfinished :
  pullConcrete TarV2 first_layer_fails "library/alpine" "tok" alpine_arm64 "out.tar"
    empty_state =
  Throw {| files := ["out.tar"];
           packs := [{| pack_path := "out.tar"; headers := ["layer-sha256_l2.tar.gz"];
                        pending := []; piping := true; finalizing := false;
                        finalized := false |}];
           trace := [ReqBlob "library/alpine" "sha256:l1";
                     LayerFailed "https://registry-1.docker.io/v2/library/alpine/blobs/sha256:l1"
                       "Bearer tok";
                     ReqBlob "library/alpine" "sha256:l2";
                     ReqBlob "library/alpine" "sha256:cfg"] |} /\
  pullConcrete TarV3 first_layer_fails "library/alpine" "tok" alpine_arm64 "out.tar"
    empty_state =
  Ok tt {| files := ["out.tar"];
           packs := [{| pack_path := "out.tar"; headers := ["layer-sha256_l2.tar.gz"];
                        pending := ["config.json"]; piping := true; finalizing := true;
                        finalized := false |}];
           trace := [ReqBlob "library/alpine" "sha256:l1";
                     LayerFailed "https://registry-1.docker.io/v2/library/alpine/blobs/sha256:l1"
                       "Bearer tok";
                     ReqBlob "library/alpine" "sha256:l2";
                     ReqBlob "library/alpine" "sha256:cfg";
                     ImageDone "out.tar"] |} /\
  exists st',
    downloadDockerImage TarV2 any_token manifests_get first_layer_fails empty_tags
      (fun l => l) pick_first_tag pick_second "alpine:3.18" empty_state = Ok tt st' /\
    In (ImageError "alpine:3.18") (trace st') /\
    ~ In (ImageDone "downloads/docker-images/library_alpine_3.18.tar") (trace st').
Proof.
  split; [vm_compute; reflexivity | split; [vm_compute; reflexivity|]].
  eexists; split; [vm_compute; reflexivity|]; split.
  - simpl; repeat (first [left; reflexivity | right]).
  - simpl; intros H; repeat (destruct H as [H|H]; [discriminate|]); exact H.
Qed.

End DockerChecks.

(** * Further properties of the code *)

(** ** npm.js: files on disk, [processPackage] and the batch of [main] *)

Module NpmExtra.
Import Npm NpmFacts.

Definition files_grow (st st' : state) : Prop := incl (files st) (files st').

Lemma files_grow_trans a b c : files_grow a b -> files_grow b c -> files_grow a c.
Proof. unfold files_grow; intros; eapply incl_tran; eauto. Qed.

Lemma files_grow_refl st : files_grow st st.
Proof. apply incl_refl. Qed.

(** The trace of [st'] extends the trace of [st]. *)
Definition trace_ext (st st' : state) : Prop := exists t, trace st' = trace st ++ t.

Lemma trace_ext_trans a b c : trace_ext a b -> trace_ext b c -> trace_ext a c.
Proof.
  intros [t1 H1] [t2 H2]; exists (t1 ++ t2); rewrite H2, H1, app_assoc; reflexivity.
Qed.

Lemma grows_trace_ext st st' : grows st st' -> trace_ext st st'.
Proof. intros [added [T _]]; exists added; exact T. Qed.

Lemma fetchPackageMetadata_files rp d st :
  res_ok (files_grow st) (fetchPackageMetadata rp d st).
Proof.
  unfold fetchPackageMetadata, bind, emit, ret, throw, files_grow.
  destruct (rp d); apply incl_refl.
Qed.

Section FilesFacts.

Variable registry_version : string -> string -> option VersionMeta.
Variable registry_packument : string -> option (list string).
Variable tarball_result : string -> tarball_outcome.
Variable url_basename : string -> string.
Variable maxSatisfying : list string -> string -> option string.
Variable promptForVersion : string -> list string -> string.

Abbreviation walk :=
  (downloadTarball registry_version registry_packument tarball_result url_basename maxSatisfying).
Abbreviation dep :=
  (processDep registry_version registry_packument tarball_result url_basename maxSatisfying).
Abbreviation dep_loop :=
  (processDeps registry_version registry_packument tarball_result url_basename maxSatisfying).
Abbreviation fetch_tarball := (fetchTarballIfMissing tarball_result).
Abbreviation process :=
  (processPackage registry_version registry_packument tarball_result url_basename
     maxSatisfying promptForVersion).

Lemma fetch_tarball_files url p st : res_ok (files_grow st) (fetch_tarball url p st).
Proof.
  unfold fetchTarballIfMissing, bind, exists_sync, ret, emit, throw, create_file.
  destruct (has p (files st)) eqn:E; simpl; [apply files_grow_refl|].
  destruct (tarball_result url); simpl; unfold files_grow; simpl; rewrite ?E;
    try apply incl_refl; apply incl_tl, incl_refl.
Qed.

Lemma fetch_tarball_Ok_in url p st st' :
  fetch_tarball url p st = Ok tt st' -> In p (files st').
Proof.
  unfold fetchTarballIfMissing, bind, exists_sync, ret, emit, throw, create_file.
  destruct (has p (files st)) eqn:E; simpl.
  - intros H; inversion H; subst; apply has_In; exact E.
  - destruct (tarball_result url); simpl; intros H; inversion H; subst; simpl.
    rewrite E; left; reflexivity.
Qed.

Lemma processDeps_files fuel
  (IH : forall f, fuel = S f -> forall n v st, res_ok (files_grow st) (walk f n v st))
  deps : forall st, res_ok (files_grow st) (dep_loop fuel deps st).
Proof.
  unfold processDeps; induction deps as [|[d r] deps IHd]; intro st; cbn [for_each].
  - apply files_grow_refl.
  - apply res_ok_bind; [exact files_grow_trans | | intros; apply IHd].
    unfold processDep.
    apply res_ok_bind; [exact files_grow_trans | apply fetchPackageMetadata_files |].
    intros vs s2 _; destruct (maxSatisfying vs r).
    + destruct fuel as [|f]; [exact I | apply IH; reflexivity].
    + unfold files_grow; simpl; apply incl_refl.
Qed.

(** The walker never removes a file. *)
Lemma walk_files fuel : forall n v st, res_ok (files_grow st) (walk fuel n v st).
Proof.
  induction fuel as [|f IHf]; intros n v st;
    (destruct (in_dec String.string_dec (pkgSpec n v) (downloadedPackages st)) as [Hin|Hin];
     [rewrite walk_seen by exact Hin; apply files_grow_refl|]);
    rewrite walk_fresh by exact Hin;
    destruct (registry_version n v) as [md|];
    try (simpl; unfold files_grow; simpl; apply incl_refl);
    destruct (dist_tarball md) as [url|];
    try (simpl; unfold files_grow; simpl; apply incl_refl);
    (apply (res_ok_pre _ files_grow_trans _ (after_version_request st n v));
     [unfold files_grow; simpl; apply incl_refl|]);
    (apply res_ok_bind; [exact files_grow_trans | apply fetch_tarball_files |]);
    intros; apply processDeps_files.
  - intros f' Hf; discriminate.
  - intros f' Hf; injection Hf as <-; exact IHf.
Qed.

Lemma processPackage_reports fuel pkg st :
  match processPackage registry_version registry_packument tarball_result url_basename
     maxSatisfying promptForVersion fuel pkg st with
  | Ok _ st' =>
      grows st st' /\
      exists t e, trace st' = trace st ++ ReqPackument pkg :: t ++ [e] /\
                  (e = PackageDone pkg \/ e = PackageError pkg)
  | Throw _ | Exit _ _ => False
  | OutOfFuel => True
  end.
Proof.
  unfold processPackage, try_catch, fetchPackageMetadata.
  unfold bind at 1 2 3; unfold emit at 1.
  destruct (registry_packument pkg) as [vs|] eqn:R.
  - unfold ret.
    set (sel := match vs with [] => "undefined" | [v] => v | _ => promptForVersion pkg vs end).
    set (st1 := {| downloadedPackages := downloadedPackages st; files := files st;
                   trace := trace st ++ [ReqPackument pkg] |}).
    assert (G1 : grows st st1) by (apply (grows_silent _ _ [ReqPackument pkg]); reflexivity).
    pose proof (walk_grows registry_version registry_packument tarball_result url_basename
                  maxSatisfying fuel pkg sel st1) as G.
    unfold bind.
    destruct (downloadTarball registry_version registry_packument tarball_result url_basename
                maxSatisfying fuel pkg sel st1) as [[] s|s|c s|]; simpl in G; try exact I;
      try contradiction; unfold emit; simpl.
    + split.
      * eapply grows_trans; [exact G1|]; eapply grows_trans; [exact G|].
        apply (grows_silent _ _ [PackageDone pkg]); reflexivity.
      * destruct G as [added [T _]]; exists added, (PackageDone pkg); split; [|left; reflexivity].
        simpl; rewrite T; simpl; rewrite <- !app_assoc; reflexivity.
    + split.
      * eapply grows_trans; [exact G1|]; eapply grows_trans; [exact G|].
        apply (grows_silent _ _ [PackageError pkg]); reflexivity.
      * destruct G as [added [T _]]; exists added, (PackageError pkg); split; [|right; reflexivity].
        simpl; rewrite T; simpl; rewrite <- !app_assoc; reflexivity.
  - unfold throw, emit, bind; simpl; split.
    + apply (grows_silent _ _ [ReqPackument pkg; MetadataError pkg; PackageError pkg]);
        simpl; rewrite <- ?app_assoc; reflexivity.
    + exists [MetadataError pkg], (PackageError pkg); split; [|right; reflexivity].
      rewrite <- !app_assoc; reflexivity.
Qed.

Lemma walk_fresh_first fuel n v st :
  ~ In (pkgSpec n v) (downloadedPackages st) ->
  res_ok (trace_ext (after_version_request st n v))
    (downloadTarball registry_version registry_packument tarball_result url_basename
       maxSatisfying fuel n v st).
Proof.
  intros Hin.
  assert (G : res_ok (grows (after_version_request st n v))
    (downloadTarball registry_version registry_packument tarball_result url_basename
       maxSatisfying fuel n v st)).
  { rewrite walk_fresh by exact Hin.
    destruct (registry_version n v) as [md|]; [|apply grows_refl].
    destruct (dist_tarball md) as [url|]; [|apply grows_refl].
    apply res_ok_bind; [exact grows_trans | apply fetch_tarball_grows |].
    intros; apply processDeps_grows; intros f _; apply walk_grows. }
  revert G; apply res_ok_impl; apply grows_trace_ext.
Qed.

(** [main] of npm.js (lines 159-161): the loop over the package names
    never stops early.  No exception escapes [processPackage], so every
    name of the batch has its packument requested, and the set of
    downloaded identities only grows. *)
Theorem batch_processes_every_package fuel names : forall st,
  match NpmMain.processAll registry_version registry_packument tarball_result url_basename
          maxSatisfying promptForVersion fuel names st with
  | Ok _ st' => grows st st' /\ forall n, In n names -> In (ReqPackument n) (trace st')
  | Throw _ | Exit _ _ => False
  | OutOfFuel => True
  end.
Proof.
  unfold NpmMain.processAll; induction names as [|n names IH]; intro st; cbn [for_each].
  - split; [apply grows_refl | intros _ []].
  - unfold bind at 1.
    pose proof (processPackage_reports fuel n st) as P.
    destruct (processPackage registry_version registry_packument tarball_result url_basename
                maxSatisfying promptForVersion fuel n st) as [[] s|s|c s|];
      try contradiction; try exact I.
    destruct P as [G1 [t [e [T _]]]].
    specialize (IH s).
    destruct (for_each _ names s) as [[] s'|s'|c s'|]; try contradiction; try exact I.
    destruct IH as [G2 Hall]; split; [eapply grows_trans; eauto|].
    intros m [<-|Hm]; [|apply Hall; exact Hm].
    destruct (grows_trace_ext _ _ G2) as [t2 T2]; rewrite T2, T.
    apply in_or_app; left; apply in_or_app; right; left; reflexivity.
Qed.

(** [fetchPackageMetadata] and [processPackage]: a package whose
    packument cannot be fetched is reported twice (by
    [fetchPackageMetadata], which rethrows, then by the [catch] of
    [processPackage]); nothing is downloaded and the set of identities is
    untouched. *)
Theorem unknown_package_reported_twice fuel pkg st :
  registry_packument pkg = None ->
  processPackage registry_version registry_packument tarball_result url_basename
    maxSatisfying promptForVersion fuel pkg st =
  Ok tt {| downloadedPackages := downloadedPackages st; files := files st;
           trace := trace st ++ [ReqPackument pkg; MetadataError pkg; PackageError pkg] |}.
Proof.
  intros R; unfold processPackage, try_catch, fetchPackageMetadata, bind, emit, throw.
  rewrite R; simpl; rewrite <- !app_assoc; reflexivity.
Qed.

(** [processPackage], lines 127-133: a package with a single published
    version is walked at that version, and a package with no version at
    all at the version ["undefined"], without a prompt: the run is the
    walk of that version after the packument request, with its
    [try]/[catch].  The version document is then requested if that
    identity was not downloaded yet; otherwise the package is reported
    done at once. *)
Theorem few_versions_walked_without_prompt fuel pkg vs st :
  registry_packument pkg = Some vs -> length vs <= 1 ->
  processPackage registry_version registry_packument tarball_result url_basename
    maxSatisfying promptForVersion fuel pkg st =
  try_catch
    (downloadTarball registry_version registry_packument tarball_result url_basename
       maxSatisfying fuel pkg (hd "undefined" vs) ;;;
     emit (PackageDone pkg))
    (emit (PackageError pkg))
    {| downloadedPackages := downloadedPackages st; files := files st;
       trace := trace st ++ [ReqPackument pkg] |} /\
  (~ In (pkgSpec pkg (hd "undefined" vs)) (downloadedPackages st) ->
   match processPackage registry_version registry_packument tarball_result url_basename
           maxSatisfying promptForVersion fuel pkg st with
   | Ok _ st' =>
       exists t, trace st' = trace st ++ [ReqPackument pkg; ReqVersion pkg (hd "undefined" vs)] ++ t
   | Throw _ | Exit _ _ => False
   | OutOfFuel => True
   end) /\
  (In (pkgSpec pkg (hd "undefined" vs)) (downloadedPackages st) ->
   processPackage registry_version registry_packument tarball_result url_basename
     maxSatisfying promptForVersion fuel pkg st =
   Ok tt {| downloadedPackages := downloadedPackages st; files := files st;
            trace := trace st ++ [ReqPackument pkg; PackageDone pkg] |}).
Proof.
  intros R Hlen.
  assert (Hsel : match vs with [] => "undefined" | [v] => v | _ => promptForVersion pkg vs end
                 = hd "undefined" vs)
    by (destruct vs as [|x [|y vs]]; simpl in *; [reflexivity | reflexivity | lia]).
  set (st1 := {| downloadedPackages := downloadedPackages st; files := files st;
                 trace := trace st ++ [ReqPackument pkg] |}).
  assert (E : fetchPackageMetadata registry_packument pkg st = Ok vs st1)
    by (unfold fetchPackageMetadata, bind, emit; rewrite R; reflexivity).
  assert (P : processPackage registry_version registry_packument tarball_result url_basename
                maxSatisfying promptForVersion fuel pkg st =
              try_catch
                (downloadTarball registry_version registry_packument tarball_result
                   url_basename maxSatisfying fuel pkg (hd "undefined" vs) ;;;
                 emit (PackageDone pkg))
                (emit (PackageError pkg)) st1).
  { unfold processPackage, try_catch; rewrite (bind_Ok _ _ _ _ _ E); cbv beta zeta.
    rewrite Hsel; reflexivity. }
  split; [exact P | split].
  - intros Hin; rewrite P.
    pose proof (walk_fresh_first fuel pkg (hd "undefined" vs) st1 Hin) as G.
    unfold try_catch, bind.
    destruct (downloadTarball registry_version registry_packument tarball_result url_basename
                maxSatisfying fuel pkg (hd "undefined" vs) st1) as [[] s|s|c s|];
      simpl in G; try exact I; try contradiction; unfold emit; simpl;
      destruct G as [t T]; simpl in T; rewrite T;
      [exists (t ++ [PackageDone pkg]) | exists (t ++ [PackageError pkg])];
      rewrite <- !app_assoc; reflexivity.
  - intros Hin; rewrite P; unfold try_catch, bind.
    rewrite (walk_seen registry_version registry_packument tarball_result url_basename
               maxSatisfying fuel pkg (hd "undefined" vs) st1 Hin).
    unfold emit; simpl; rewrite <- app_assoc; reflexivity.
Qed.

(** [downloadTarball]: the walk never removes a file; and when the walk
    of a fresh identity with a tarball URL returns normally, the tarball
    file is on disk at its destination. *)
Theorem successful_walk_leaves_tarball fuel n v st :
  (forall st',
     downloadTarball registry_version registry_packument tarball_result url_basename
       maxSatisfying fuel n v st = Ok tt st' \/
     downloadTarball registry_version registry_packument tarball_result url_basename
       maxSatisfying fuel n v st = Throw st' ->
     incl (files st) (files st')) /\
  (forall st' md url,
     ~ In (pkgSpec n v) (downloadedPackages st) ->
     registry_version n v = Some md -> dist_tarball md = Some url ->
     downloadTarball registry_version registry_packument tarball_result url_basename
       maxSatisfying fuel n v st = Ok tt st' ->
     In (destPath_of url_basename url) (files st')).
Proof.
  split.
  - intros st' H; pose proof (walk_files fuel n v st) as G.
    destruct H as [H|H]; rewrite H in G; exact G.
  - intros st' md url Hin Hmd Hurl H.
    rewrite walk_fresh in H by exact Hin; rewrite Hmd, Hurl in H; unfold bind in H.
    destruct (fetchTarballIfMissing tarball_result url (destPath_of url_basename url)
                (after_version_request st n v)) as [[] s1|s1|c s1|] eqn:E; try discriminate.
    apply fetch_tarball_Ok_in in E.
    pose proof (processDeps_files fuel (fun f _ => walk_files f) (deps_of md) s1) as G.
    unfold processDeps in G; unfold processDeps in H; rewrite H in G; apply G; exact E.
Qed.

(** [downloadTarball], lines 61-89: a tarball whose stream fails after
    the file was opened leaves that file behind; from then on any request
    for that destination (for any URL) finds the file and sends nothing. *)
Theorem interrupted_download_never_resumed url p st :
  ~ In p (files st) -> tarball_result url = StreamFailed ->
  exists st',
    fetchTarballIfMissing tarball_result url p st = Throw st' /\
    In p (files st') /\ trace st' = trace st ++ [ReqTarball url] /\
    forall url' st'', incl (files st') (files st'') ->
      fetchTarballIfMissing tarball_result url' p st'' = Ok tt st''.
Proof.
  intros Hp Hr.
  unfold fetchTarballIfMissing, bind, exists_sync, emit, create_file, throw.
  apply has_false in Hp; rewrite Hp, Hr; simpl; rewrite Hp.
  eexists; split; [reflexivity|]; simpl; split; [left; reflexivity|]; split; [reflexivity|].
  intros url' st'' Hincl; unfold ret.
  replace (has p (files st'')) with true; [reflexivity|].
  symmetry; apply has_In, Hincl; left; reflexivity.
Qed.
End FilesFacts.

End NpmExtra.

(** ** The Docker puller: archives, names, tags and the batch *)

Module DockerExtra.
Import Docker DockerFacts.


Lemma emit_extends e st : res_ok (extends st) (emit e st).
Proof. exists [e]; reflexivity. Qed.

Lemma append_assoc_s (a b c : string) : ((a ++ b) ++ c)%string = (a ++ (b ++ c))%string.
Proof. induction a as [|x a IH]; simpl; [reflexivity | rewrite IH; reflexivity]. Qed.

Lemma append_empty_s (a : string) : (a ++ "")%string = a.
Proof. induction a as [|x a IH]; simpl; [reflexivity | rewrite IH; reflexivity]. Qed.

Lemma contains_app c a b : contains c (a ++ b)%string = contains c a || contains c b.
Proof. induction a as [|x a IH]; simpl; [reflexivity | rewrite IH, orb_assoc; reflexivity]. Qed.

Lemma contains_replace c cs d s :
  In c cs -> d <> c -> contains c (replace_chars cs d s) = false.
Proof.
  intros Hc Hd; induction s as [|a s IH]; simpl; [reflexivity|]; rewrite IH, orb_false_r.
  destruct (existsb (Ascii.eqb a) cs) eqn:E; apply Ascii.eqb_neq; [exact Hd|].
  intros ->; assert (K : existsb (Ascii.eqb c) cs = true)
    by (apply existsb_exists; exists c; split; [exact Hc | apply Ascii.eqb_refl]).
  congruence.
Qed.

Lemma split_aux_app c a s cur :
  contains c a = false ->
  Semver.split_aux c (a ++ s)%string cur = Semver.split_aux c s (cur ++ a)%string.
Proof.
  revert cur; induction a as [|x a IH]; intros cur Ha; simpl.
  - rewrite append_empty_s; reflexivity.
  - simpl in Ha; apply orb_false_iff in Ha as [Hx Ha]; rewrite Hx, IH by exact Ha.
    rewrite append_assoc_s; reflexivity.
Qed.

Lemma split_no_sep c a : contains c a = false -> Semver.split c a = [a].
Proof.
  intros Ha; unfold Semver.split.
  rewrite <- (append_empty_s a) at 1; rewrite split_aux_app by exact Ha; reflexivity.
Qed.

Lemma split_sep c a s :
  contains c a = false -> Semver.split c (a ++ String c s)%string = a :: Semver.split c s.
Proof.
  intros Ha; unfold Semver.split; rewrite split_aux_app by exact Ha; simpl.
  rewrite Ascii.eqb_refl; reflexivity.
Qed.

(** Lines 32-34 and 148: the tar entry name of a layer contains no [':']
    and no ['/'], and the image name part of the archive file name
    contains no ['/']. *)
Theorem layer_and_archive_names_path_safe d name :
  contains ":" (layer_entry_name d) = false /\
  contains "/" (layer_entry_name d) = false /\
  contains "/" (replace_chars ["/"%char] "_" name) = false.
Proof.
  unfold layer_entry_name; rewrite !contains_app; simpl.
  rewrite !contains_replace; simpl; auto; try (intros H; discriminate H);
    intuition discriminate.
Qed.

(** Lines 19-24: [name:tag] is split at the first colon; a name without
    ['/'] gets the [library/] prefix; anything after a second colon is
    dropped; a reference without a colon is all name and has no tag. *)
Theorem image_reference_parsing n t rest :
  contains ":" n = false -> contains ":" t = false ->
  image_name (n ++ ":" ++ t)%string = (if contains "/" n then n else "library/" ++ n)%string /\
  image_tag (n ++ ":" ++ t)%string = t /\
  image_name (n ++ ":" ++ t ++ ":" ++ rest)%string =
    (if contains "/" n then n else "library/" ++ n)%string /\
  image_tag (n ++ ":" ++ t ++ ":" ++ rest)%string = t /\
  image_name n = (if contains "/" n then n else "library/" ++ n)%string /\
  image_tag n = "".
Proof.
  intros Hn Ht; unfold image_name, image_tag; simpl.
  rewrite !split_sep by exact Hn; rewrite split_no_sep by exact Ht.
  rewrite split_sep by exact Ht; rewrite split_no_sep by exact Hn.
  repeat split; reflexivity.
Qed.

Section PullerExtra.

Variable tar : tar_version.
Variable auth_token : string -> option string.
Variable manifest_get : string -> string -> option Response.
Variable blob_ok : string -> string -> bool.
Variable tags_get : string -> option (option (list string)).
Variable sort_tags : list string -> list string.
Variable promptTag : list string -> string.
Variable promptPlatform : list string -> nat.

Lemma getManifest_extends name ref acc st :
  res_ok (extends st) (getManifest manifest_get name ref acc st).
Proof.
  unfold getManifest, bind, emit, ret, throw.
  destruct (manifest_get name ref); exists [ReqManifest name ref acc]; reflexivity.
Qed.

Lemma getManifest_not_oof name ref acc st : getManifest manifest_get name ref acc st <> OutOfFuel.
Proof.
  unfold getManifest, bind, emit, ret, throw; destruct (manifest_get name ref); discriminate.
Qed.

(** A pull begins with the token request and only extends the trace. *)
Lemma pull_starts name tag p st :
  res_ok (fun s => exists t, trace s = trace st ++ ReqToken name :: t)
    (pullImage tar auth_token manifest_get blob_ok promptPlatform name tag p st).
Proof.
  unfold pullImage at 1, getToken; unfold bind at 1 2; unfold emit at 1.
  destruct (auth_token name) as [t|]; [|exists []; reflexivity].
  unfold ret.
  set (s1 := {| files := files st; packs := packs st; trace := trace st ++ [ReqToken name] |}).
  apply (res_ok_impl (extends s1)).
  { intros s [x Hx]; exists x; rewrite Hx; simpl; rewrite <- app_assoc; reflexivity. }
  apply res_ok_bind; [exact extends_trans | apply getManifest_extends |].
  intros resp s2 _.
  apply res_ok_bind; [exact extends_trans | |].
  - destruct (is_index (mediaTypeOf resp)); [|apply extends_refl].
    apply res_ok_bind; [exact extends_trans | apply emit_extends |].
    intros _ s3 _.
    destruct (nth_error _ _) as [sel|]; [|apply extends_refl].
    apply res_ok_bind; [exact extends_trans | apply getManifest_extends |].
    intros; apply extends_refl.
  - intros [manifest mt] s3 _.
    destruct (is_concrete mt); [apply concrete_extends | apply emit_extends].
Qed.

Lemma pull_not_oof name tag p st :
  pullImage tar auth_token manifest_get blob_ok promptPlatform name tag p st <> OutOfFuel.
Proof.
  unfold pullImage.
  apply bind_not_oof.
  { unfold getToken, bind, emit, ret, throw; destruct (auth_token name); discriminate. }
  intros t s1 _; apply bind_not_oof; [apply getManifest_not_oof|].
  intros resp s2 _; apply bind_not_oof.
  - destruct (is_index (mediaTypeOf resp)); [|discriminate].
    unfold bind at 1, emit at 1.
    destruct (nth_error _ _) as [sel|]; [|discriminate].
    apply bind_not_oof; [apply getManifest_not_oof | discriminate].
  - intros [manifest mt] s3 _.
    destruct (is_concrete mt); [apply concrete_not_oof | discriminate].
Qed.


Lemma image_body_ok p img name tag s :
  exists s' rest,
    (ex <- exists_sync p ;;
     if ex then emit (AlreadyDownloaded p)
     else try_catch (pullImage tar auth_token manifest_get blob_ok promptPlatform name tag p)
                    (emit (ImageError img))) s = Ok tt s' /\
    trace s' = trace s ++ rest /\
    (In (AlreadyDownloaded p) rest \/ In (ReqToken name) rest).
Proof.
  unfold bind at 1, exists_sync.
  destruct (has p (files s)).
  - eexists; exists [AlreadyDownloaded p]; split; [reflexivity|]; split; [reflexivity|].
    left; left; reflexivity.
  - unfold try_catch.
    pose proof (pull_starts name tag p s) as G.
    pose proof (pull_not_oof name tag p s) as N.
    destruct (pullImage tar auth_token manifest_get blob_ok promptPlatform name tag p s)
      as [[] s'|s'|c s'|]; simpl in G; try contradiction; try congruence;
      destruct G as [x Hx].
    + exists s', (ReqToken name :: x); split; [reflexivity|]; split; [exact Hx|].
      right; left; reflexivity.
    + unfold emit; eexists; exists (ReqToken name :: x ++ [ImageError img]).
      split; [reflexivity|]; simpl; rewrite Hx; split.
      * rewrite <- app_assoc; reflexivity.
      * right; left; reflexivity.
Qed.

Lemma download_tagged img :
  image_tag img <> "" ->
  downloadDockerImage tar auth_token manifest_get blob_ok tags_get sort_tags promptTag
    promptPlatform img =
  (ex <- exists_sync (docker_dest_path (image_name img) (image_tag img)) ;;
   if ex then emit (AlreadyDownloaded (docker_dest_path (image_name img) (image_tag img)))
   else try_catch (pullImage tar auth_token manifest_get blob_ok promptPlatform (image_name img)
                     (image_tag img) (docker_dest_path (image_name img) (image_tag img)))
                  (emit (ImageError img))).
Proof.
  intros H; apply String.eqb_neq in H.
  unfold downloadDockerImage; rewrite H; reflexivity.
Qed.

(** [downloadDockerImage], lines 19-38: an image given with its tag whose
    archive already exists is only reported; no request is sent. *)
Theorem existing_archive_skips_network img st :
  image_tag img <> "" ->
  In (docker_dest_path (image_name img) (image_tag img)) (files st) ->
  downloadDockerImage tar auth_token manifest_get blob_ok tags_get sort_tags promptTag
    promptPlatform img st =
  Ok tt {| files := files st; packs := packs st;
           trace := trace st ++
             [AlreadyDownloaded (docker_dest_path (image_name img) (image_tag img))] |}.
Proof.
  intros Ht Hin; rewrite download_tagged by exact Ht.
  unfold bind, exists_sync; apply docker_has_In in Hin; rewrite Hin; reflexivity.
Qed.

(** [downloadDockerImage] and [selectTag]: for an image given without a
    tag, the token and the tag list are requested and the tags offered
    in reverse sorted order before the archive is looked for, so this
    happens even when the archive of the chosen tag exists; the call then
    returns normally. *)
Theorem untagged_image_lists_tags_first img st t tags :
  image_tag img = "" ->
  auth_token (image_name img) = Some t ->
  tags_get (image_name img) = Some (Some tags) -> tags <> [] ->
  exists st' rest,
    downloadDockerImage tar auth_token manifest_get blob_ok tags_get sort_tags promptTag
      promptPlatform img st = Ok tt st' /\
    trace st' = trace st ++
      [ReqToken (image_name img); ReqTags (image_name img);
       PromptTag (rev (sort_tags tags))] ++ rest.
Proof.
  intros Htag Ht Htags Hne.
  unfold downloadDockerImage; rewrite Htag; simpl.
  unfold selectTag, try_catch, getToken, bind at 1 2 3 4 5 6, emit at 1 2, ret at 1; simpl.
  rewrite Ht; simpl; rewrite Htags.
  destruct tags as [|x xs]; [congruence|].
  unfold bind at 1, emit at 1, ret at 1; simpl.
  match goal with
  | |- context [bind (exists_sync ?p) ?k ?s] =>
      destruct (image_body_ok p img (image_name img) (promptTag (rev (sort_tags (x :: xs)))) s)
        as [s' [rest [E [T _]]]]
  end.
  exists s', rest; split; [exact E|]; rewrite T; simpl; rewrite <- !app_assoc; reflexivity.
Qed.

(** [main] of download-docker.js: when every image of the batch has a
    tag, the batch neither throws nor exits, and each image is either
    reported as already downloaded or has its token requested. *)
Theorem tagged_batch_processes_every_image names : forall st,
  Forall (fun img => image_tag img <> "") names ->
  match downloadAll tar auth_token manifest_get blob_ok tags_get sort_tags promptTag
          promptPlatform names st with
  | Ok _ st' =>
      extends st st' /\
      forall img, In img names ->
        In (AlreadyDownloaded (docker_dest_path (image_name img) (image_tag img))) (trace st')
        \/ In (ReqToken (image_name img)) (trace st')
  | _ => False
  end.
Proof.
  unfold downloadAll; induction names as [|img names IH]; intros st Hall; cbn [for_each].
  - split; [apply extends_refl | intros _ []].
  - inversion Hall as [|? ? Himg Hrest]; subst.
    unfold bind at 1; rewrite download_tagged by exact Himg.
    destruct (image_body_ok (docker_dest_path (image_name img) (image_tag img)) img
                (image_name img) (image_tag img) st) as [s1 [rest [E [T Hev]]]].
    rewrite E.
    specialize (IH s1 Hrest).
    destruct (for_each _ names s1) as [[] s2|s2|c s2|]; try contradiction.
    destruct IH as [[x Hx] H2]; split.
    + exists (rest ++ x); rewrite Hx, T, app_assoc; reflexivity.
    + intros m [<-|Hm]; [|apply H2; exact Hm].
      rewrite Hx, T.
      destruct Hev as [Hev|Hev]; [left|right];
        apply in_or_app; left; apply in_or_app; right; exact Hev.
Qed.

(** Lines 115-178: a manifest that is neither an index nor a concrete
    image manifest is reported as unsupported, after two requests; no
    archive is created and no blob requested. *)
Theorem unsupported_manifest_creates_no_archive name tag p st t r :
  auth_token name = Some t ->
  manifest_get name tag = Some r ->
  is_index (mediaTypeOf r) = false ->
  is_concrete (mediaTypeOf r) = false ->
  pullImage tar auth_token manifest_get blob_ok promptPlatform name tag p st =
  Ok tt {| files := files st; packs := packs st;
           trace := trace st ++ [ReqToken name; ReqManifest name tag acceptAll; Unsupported] |}.
Proof.
  intros Ht Hr Hi Hc.
  unfold pullImage, getToken, getManifest, bind, emit, ret, throw; simpl.
  rewrite Ht; simpl; rewrite Hr; simpl; rewrite Hi; simpl; rewrite Hc; simpl.
  rewrite <- !app_assoc; reflexivity.
Qed.

(** [selectTag], lines 222-227: when the token or the tag list cannot be
    fetched, the error is reported and the process exits with code 1. *)
Theorem tags_request_failure_exits name st :
  auth_token name = None \/ (exists t, auth_token name = Some t /\ tags_get name = None) ->
  exists rest,
    selectTag auth_token tags_get sort_tags promptTag name st =
    Exit 1 {| files := files st; packs := packs st;
              trace := trace st ++ ReqToken name :: rest ++ [TagsError] |}.
Proof.
  intros [Ht|[t [Ht Htags]]];
    unfold selectTag, try_catch, getToken, bind, emit, ret, throw, exit; simpl; rewrite Ht.
  - exists []; simpl; rewrite <- !app_assoc; reflexivity.
  - simpl; rewrite Htags; exists [ReqTags name]; simpl; rewrite <- !app_assoc; reflexivity.
Qed.



End PullerExtra.
End DockerExtra.

(** ** Concrete runs of the further properties *)

Module ExtraChecks.

Module N.
Import Npm NpmSample ExtraSample.N.

Lemma unknown_package_reported_twice_witness :
  processPackage few_version few_packument all_complete last_segment Semver.frag_maxSatisfying
    first_choice 3 "left-pad" empty_state =
  Ok tt {| downloadedPackages := []; files := [];
           trace := [ReqPackument "left-pad"; MetadataError "left-pad"; PackageError "left-pad"] |}.
Proof.
  exact (NpmExtra.unknown_package_reported_twice few_version few_packument all_complete
           last_segment Semver.frag_maxSatisfying first_choice 3 "left-pad" empty_state
           eq_refl).
Defined.

Definition solo_seen : state :=
  {| downloadedPackages := ["solo@2.1.0"]; files := []; trace := [] |}.

Lemma few_versions_walked_without_prompt_witness :
  processPackage few_version few_packument all_complete last_segment
    Semver.frag_maxSatisfying first_choice 3 "solo" solo_seen =
  Ok tt {| downloadedPackages := downloadedPackages solo_seen; files := files solo_seen;
           trace := trace solo_seen ++ [ReqPackument "solo"; PackageDone "solo"] |} /\
  match processPackage few_version few_packument all_complete last_segment
          Semver.frag_maxSatisfying first_choice 3 "bare" empty_state with
  | Ok _ st' =>
      exists t, trace st' = trace empty_state ++
                  [ReqPackument "bare"; ReqVersion "bare" (hd "undefined" [])] ++ t
  | Throw _ | Exit _ _ => False
  | OutOfFuel => True
  end.
Proof.
  split.
  - apply (NpmExtra.few_versions_walked_without_prompt few_version few_packument all_complete
             last_segment Semver.frag_maxSatisfying first_choice 3 "solo" ["2.1.0"] solo_seen);
      [reflexivity | simpl; lia | left; reflexivity].
  - apply (NpmExtra.few_versions_walked_without_prompt few_version few_packument all_complete
             last_segment Semver.frag_maxSatisfying first_choice 3 "bare" [] empty_state);
      [reflexivity | simpl; lia | intros []].
Defined.

Lemma successful_walk_leaves_tarball_witness :
  exists st',
    downloadTarball few_version few_packument all_complete last_segment
      Semver.frag_maxSatisfying 3 "solo" "2.1.0" empty_state = Ok tt st' /\
    In (destPath_of last_segment (tgz "solo" "2.1.0")) (files st').
Proof.
  eexists; split; [vm_compute; reflexivity|].
  apply (proj2 (NpmExtra.successful_walk_leaves_tarball few_version few_packument
           all_complete last_segment Semver.frag_maxSatisfying 3 "solo" "2.1.0" empty_state)
           _ (meta "solo" "2.1.0" [])).
  - intros [].
  - reflexivity.
  - reflexivity.
  - vm_compute; reflexivity.
Defined.

Lemma interrupted_download_never_resumed_witness :
  exists st',
    fetchTarballIfMissing stream_fails (tgz "solo" "2.1.0") "downloads/npm-packages/solo-2.1.0.tgz"
      empty_state = Throw st' /\
    In "downloads/npm-packages/solo-2.1.0.tgz" (files st') /\
    trace st' = trace empty_state ++ [ReqTarball (tgz "solo" "2.1.0")] /\
    forall url' st'', incl (files st') (files st'') ->
      fetchTarballIfMissing stream_fails url' "downloads/npm-packages/solo-2.1.0.tgz" st''
      = Ok tt st''.
Proof.
  apply (NpmExtra.interrupted_download_never_resumed stream_fails (tgz "solo" "2.1.0")
           "downloads/npm-packages/solo-2.1.0.tgz" empty_state).
  - intros [].
  - reflexivity.
Defined.

End N.

Module D.
Import Docker DockerSample ExtraSample.D.

Abbreviation download :=
  (downloadDockerImage TarV3 any_token ExtraSample.D.manifests_get config_fails some_tags
     (fun l => l) pick_first_tag pick_second).

Lemma existing_archive_skips_network_witness :
  download "busybox:1.36" {| files := [busybox_dest]; packs := []; trace := [] |} =
  Ok tt {| files := [busybox_dest]; packs := [];
           trace := [AlreadyDownloaded busybox_dest] |}.
Proof.
  apply (DockerExtra.existing_archive_skips_network TarV3 any_token ExtraSample.D.manifests_get
           config_fails some_tags (fun l => l) pick_first_tag pick_second "busybox:1.36"
           {| files := [busybox_dest]; packs := []; trace := [] |}).
  - vm_compute; discriminate.
  - left; reflexivity.
Defined.

Lemma untagged_image_lists_tags_first_witness :
  exists st' rest,
    download "busybox" empty_state = Ok tt st' /\
    trace st' = trace empty_state ++
      [ReqToken "library/busybox"; ReqTags "library/busybox";
       PromptTag (rev ["1.35"; "1.36"])] ++ rest.
Proof.
  apply (DockerExtra.untagged_image_lists_tags_first TarV3 any_token ExtraSample.D.manifests_get
           config_fails some_tags (fun l => l) pick_first_tag pick_second "busybox"
           empty_state "tok" ["1.35"; "1.36"]).
  - reflexivity.
  - reflexivity.
  - reflexivity.
  - discriminate.
Defined.

Lemma tagged_batch_processes_every_image_witness :
  match downloadAll TarV3 any_token ExtraSample.D.manifests_get config_fails some_tags
          (fun l => l) pick_first_tag pick_second ["busybox:1.36"; "hello:old"] empty_state with
  | Ok _ st' =>
      DockerFacts.extends empty_state st' /\
      forall img, In img ["busybox:1.36"; "hello:old"] ->
        In (AlreadyDownloaded (docker_dest_path (image_name img) (image_tag img))) (trace st')
        \/ In (ReqToken (image_name img)) (trace st')
  | _ => False
  end.
Proof.
  apply (DockerExtra.tagged_batch_processes_every_image TarV3 any_token ExtraSample.D.manifests_get
           config_fails some_tags (fun l => l) pick_first_tag pick_second
           ["busybox:1.36"; "hello:old"] empty_state).
  repeat constructor; vm_compute; discriminate.
Defined.

Lemma unsupported_manifest_creates_no_archive_witness :
  pullImage TarV3 any_token ExtraSample.D.manifests_get config_fails pick_second "library/hello" "old"
    (docker_dest_path "library/hello" "old") empty_state =
  Ok tt {| files := []; packs := [];
           trace := [ReqToken "library/hello"; ReqManifest "library/hello" "old" acceptAll;
                     Unsupported] |}.
Proof.
  apply (DockerExtra.unsupported_manifest_creates_no_archive TarV3 any_token
           ExtraSample.D.manifests_get config_fails pick_second "library/hello" "old"
           (docker_dest_path "library/hello" "old") empty_state "tok"
           {| data := hello_manifest; content_type := "application/json" |});
    reflexivity.
Defined.

Lemma tags_request_failure_exits_witness :
  exists rest,
    selectTag no_token some_tags (fun l => l) pick_first_tag "library/busybox" empty_state =
    Exit 1 {| files := []; packs := [];
              trace := [] ++ ReqToken "library/busybox" :: rest ++ [TagsError] |}.
Proof.
  apply (DockerExtra.tags_request_failure_exits no_token some_tags (fun l => l)
           pick_first_tag "library/busybox" empty_state).
  left; reflexivity.
Defined.


Lemma image_reference_parsing_witness :
  image_name ("alpine" ++ ":" ++ "3.18")%string =
    (if contains "/" "alpine" then "alpine" else "library/" ++ "alpine")%string /\
  image_tag ("alpine" ++ ":" ++ "3.18")%string = "3.18" /\
  image_name ("alpine" ++ ":" ++ "3.18" ++ ":" ++ "extra")%string =
    (if contains "/" "alpine" then "alpine" else "library/" ++ "alpine")%string /\
  image_tag ("alpine" ++ ":" ++ "3.18" ++ ":" ++ "extra")%string = "3.18" /\
  image_name "alpine" = (if contains "/" "alpine" then "alpine" else "library/" ++ "alpine")%string /\
  image_tag "alpine" = "".
Proof.
  apply (DockerExtra.image_reference_parsing "alpine" "3.18" "extra"); reflexivity.
Defined.

End D.

End ExtraChecks.
